(** * Liquity liquidation bot, position report and Uniswap risk estimators

    A shallow embedding of the three scripts of the repository:

    - [liquity_liquidation_bot.py]: the polling loop [main], the health
      evaluation [get_trove_details] and the submission [liquidate_trove];
    - [liquity_position_info.py]: the health evaluation [get_trove_info];
    - [uniswap_option_risks.py]: [calculate_uniswap_option_risks] and
      [calculate_impermanent_loss].

    The two Liquity scripts only multiply, divide and compare Python floats,
    so their arithmetic is embedded on the primitive binary64 floats of the
    standard library, with the int-to-float conversions of Python written
    out.  Every call to web3, requests, logging or time is an [event] in a
    trace, and what the outside world answers is read from a [world] record;
    Python exceptions travel through a small trace-and-exception monad.

    The Uniswap script uses [np.log], [np.exp] and the normal distribution of
    SciPy; its expressions are embedded as the real-valued functions they
    denote. *)

From Stdlib Require Import ZArith List String Bool Lia.
From Stdlib Require Import Floats.
From Stdlib Require Import Reals Lra Psatz.
Import ListNotations.

(** ** Python values, exceptions and float helpers *)

Module Py.

(** The exception classes that the scripts can meet.  [KeyboardInterrupt]
    and [SystemExit] derive from [BaseException] only, the others from
    [Exception]. *)
Inductive exn : Type :=
| ConnectionError      (* requests / web3 transport failure *)
| JSONDecodeError      (* response.json() on a malformed body *)
| KeyError             (* data["ethereum"]["usd"] missing *)
| IndexError           (* trove[i] on a short tuple *)
| TypeError            (* float * non-number *)
| ValueError           (* web3 validation, bad key *)
| OverflowError        (* int too large to convert to float *)
| ZeroDivisionError    (* float division by zero *)
| TimeExhausted        (* web3: no receipt within the timeout *)
| ContractLogicError   (* web3: call reverted *)
| KeyboardInterrupt
| SystemExit.

(** [isinstance(e, Exception)]. *)
Definition is_Exception (e : exn) : bool :=
  match e with
  | KeyboardInterrupt | SystemExit => false
  | _ => true
  end.

Inductive result (A : Type) : Type :=
| Ok (a : A)
| Raise (e : exn).
Arguments Ok {A} a.
Arguments Raise {A} e.

Definition is_ok {A} (r : result A) : bool :=
  match r with Ok _ => true | Raise _ => false end.

(** A value decoded from JSON by [response.json()]: a number, [true] or
    [false], a string, [null], an array or an object. *)
#[warnings="-register-all"]
Inductive value : Type :=
| PyInt (z : Z)
| PyFloat (f : float)
| PyBool (b : bool)
| PyStr (s : string)
| PyNone
| PyList (items : list value)
| PyDict (items : list (string * value)).

Local Open Scope float_scope.

(** Nearest binary64 float of an integer, ties to even. *)
Definition Z2F (z : Z) : float :=
  SF2Prim (binary_normalize prec emax z 0 false).

(** [float(z)] as Python performs it when an int meets a float in an
    arithmetic operation: [OverflowError] when the rounded value is out of
    the binary64 range. *)
Definition float_of_int (z : Z) : result float :=
  let f := Z2F z in
  if is_infinity f then Raise OverflowError else Ok f.

(** The right operand of [float * value].  [bool] is a subclass of [int]:
    [True] and [False] are multiplied as 1 and 0.  A string, [None], a list
    or a dict cannot be multiplied by a float. *)
Definition float_operand (v : value) : result float :=
  match v with
  | PyInt z => float_of_int z
  | PyFloat f => Ok f
  | PyBool b => Ok (if b then 1 else 0)
  | PyStr _ | PyNone | PyList _ | PyDict _ => Raise TypeError
  end.

(** [x / y] on floats. *)
Definition truediv (x y : float) : result float :=
  if y =? 0 then Raise ZeroDivisionError else Ok (x / y).

(** [t[i]] on a tuple. *)
Definition index {A} (t : list A) (i : nat) : result A :=
  match nth_error t i with
  | Some x => Ok x
  | None => Raise IndexError
  end.

End Py.
Export Py.

(** ** The outside world and the effect monad *)

Definition address := string.
Definition tx_hash := Z.

(** The dict passed to [build_transaction], with the call it is bound to. *)
Record transaction : Type := {
  tx_troves : list address;   (* liquidateTroves([address]) *)
  tx_chainId : Z;
  tx_gas : Z;
  tx_gasPrice : Z;
  tx_nonce : Z
}.

Record signed_transaction : Type := {
  st_txn : transaction;
  rawTransaction : Z
}.

(** The dict returned by [get_trove_details]. *)
Record trove_details : Type := {
  td_address : address;
  td_collateral : float;
  td_debt : float;
  td_collateral_ratio : float
}.

Inductive level : Type := INFO | ERROR.

Inductive message : Type :=
| MsgStarting
| MsgLowest (d : trove_details)
| MsgAttempting (a : address)
| MsgSent (h : tx_hash)
| MsgComplete (h : tx_hash)
| MsgAbove
| MsgNoTroves
| MsgError (e : exn).

(** One entry per call that leaves the process, with the answer it got. *)
Inductive event : Type :=
| EvFirstTrove (r : result address)
| EvTroves (a : address) (r : result (list Z))
| EvHttpGetPrice (r : result value)
| EvTransactionCount (account : address) (r : result Z)
| EvGasPrice (r : result Z)
| EvBuildTransaction (t : transaction) (r : result unit)
| EvSignTransaction (t : transaction) (r : result Z)
| EvSendRawTransaction (s : signed_transaction) (r : result tx_hash)
| EvWaitReceipt (h : tx_hash) (r : result Z)
| EvLog (l : level) (m : message)
| EvSleep (seconds : Z).

(** What the chain node, the price service and the signer answer during one
    pass of the loop. *)
Record world : Type := {
  first_trove_call : result address;
  troves_call : address -> result (list Z);
  price_get : result value;
  transaction_count : result Z;
  gas_price : result Z;
  build_transaction : transaction -> result unit;
  sign_transaction : transaction -> result Z;
  send_raw_transaction : signed_transaction -> result tx_hash;
  wait_for_transaction_receipt : tx_hash -> result Z
}.

Module Eff.

(** A computation reads the world, leaves a trace and returns or raises. *)
Definition M (A : Type) : Type := world -> list event * result A.

Definition ret {A} (a : A) : M A := fun _ => ([], Ok a).

Definition bind {A B} (m : M A) (k : A -> M B) : M B :=
  fun w =>
    match m w with
    | (t1, Ok a) => let (t2, r) := k a w in (t1 ++ t2, r)
    | (t1, Raise e) => (t1, Raise e)
    end.

Definition lift {A} (r : result A) : M A := fun _ => ([], r).

(** An external call: ask the world, record call and answer. *)
Definition call {A} (ask : world -> result A) (ev : result A -> event) : M A :=
  fun w => ([ev (ask w)], ask w).

Definition emit (ev : event) : M unit := fun _ => ([ev], Ok tt).

(** [try: body  except Exception as e: handler(e)]. *)
Definition try_except_Exception (body : M unit) (handler : exn -> M unit) : M unit :=
  fun w =>
    match body w with
    | (t1, Ok u) => (t1, Ok u)
    | (t1, Raise e) =>
        if is_Exception e
        then let (t2, r) := handler e w in (t1 ++ t2, r)
        else (t1, Raise e)
    end.

End Eff.

Declare Scope eff_scope.
Delimit Scope eff_scope with eff.
Notation "x <- m ;; k" := (Eff.bind m (fun x => k))
  (at level 61, m at next level, right associativity) : eff_scope.
Notation "m ;;; k" := (Eff.bind m (fun _ => k))
  (at level 61, right associativity) : eff_scope.

(** ** liquity_liquidation_bot.py *)

Module Bot.
Import Eff.
Local Open Scope float_scope.
Local Open Scope eff_scope.

Definition YOUR_ADDRESS : address := "YOUR_ETHEREUM_ADDRESS"%string.

(** The literals [1e18] and [1.1] of the script. *)
Definition WAD : float := 1e18.
Definition LIQUIDATION_THRESHOLD : float := 0x1.199999999999ap+0.

Definition logging_info (m : message) : M unit := emit (EvLog INFO m).
Definition logging_error (m : message) : M unit := emit (EvLog ERROR m).
Definition time_sleep (s : Z) : M unit := emit (EvSleep s).

Definition get_eth_price : M value := call price_get EvHttpGetPrice.

(** [raw / 1e18] for a Python int [raw]. *)
Definition from_wad (raw : Z) : result float :=
  match float_of_int raw with
  | Ok f => truediv f WAD
  | Raise e => Raise e
  end.

(** [trove[i] / 1e18]. *)
Definition scaled (trove : list Z) (i : nat) : M float :=
  raw <- lift (index trove i) ;;
  lift (from_wad raw).

Definition get_trove_details (a : address) : M (option trove_details) :=
  trove <- call (fun w => troves_call w a) (EvTroves a) ;;
  coll <- scaled trove 1 ;;
  debt <- scaled trove 0 ;;
  if 0 <? debt then
    price <- get_eth_price ;;
    p <- lift (float_operand price) ;;
    collateral_ratio <- lift (truediv (coll * p) debt) ;;
    ret (Some {| td_address := a;
                 td_collateral := coll;
                 td_debt := debt;
                 td_collateral_ratio := collateral_ratio |})
  else ret None.

Definition liquidate_trove (a : address) : M tx_hash :=
  nonce <- call transaction_count (EvTransactionCount YOUR_ADDRESS) ;;
  gp <- call gas_price EvGasPrice ;;
  let txn := {| tx_troves := [a];
                tx_chainId := 1;
                tx_gas := 2000000;
                tx_gasPrice := gp;
                tx_nonce := nonce |} in
  call (fun w => build_transaction w txn) (EvBuildTransaction txn) ;;;
  sig <- call (fun w => sign_transaction w txn) (EvSignTransaction txn) ;;
  let signed_txn := {| st_txn := txn; rawTransaction := sig |} in
  h <- call (fun w => send_raw_transaction w signed_txn)
            (EvSendRawTransaction signed_txn) ;;
  logging_info (MsgSent h) ;;;
  ret h.

(** The comparison [lowest_cr_trove['collateral_ratio'] < 1.1] of [main],
    for a threshold [t]. *)
Definition eligible (t : float) (d : trove_details) : bool :=
  td_collateral_ratio d <? t.

(** Whether [main] goes on to liquidate, given what [get_trove_details]
    returned: [if lowest_cr_trove:] and then the comparison with 1.1. *)
Definition reports_eligible (r : result (option trove_details)) : bool :=
  match r with
  | Ok (Some d) => eligible LIQUIDATION_THRESHOLD d
  | _ => false
  end.

(** Lines 77-78 of [main]: the two reads that start a pass. *)
Definition read_lowest_trove : M (option trove_details) :=
  first_trove <- call first_trove_call EvFirstTrove ;;
  get_trove_details first_trove.

(** Lines 80-96: what [main] does with the result. *)
Definition act_on (lowest_cr_trove : option trove_details) : M unit :=
  match lowest_cr_trove with
  | Some d =>
      logging_info (MsgLowest d) ;;;
      if eligible LIQUIDATION_THRESHOLD d then
        logging_info (MsgAttempting (td_address d)) ;;;
        h <- liquidate_trove (td_address d) ;;
        call (fun w => wait_for_transaction_receipt w h) (EvWaitReceipt h) ;;;
        logging_info (MsgComplete h)
      else logging_info MsgAbove
  | None => logging_info MsgNoTroves
  end ;;;
  time_sleep 15.

Definition loop_body : M unit :=
  lowest_cr_trove <- read_lowest_trove ;;
  act_on lowest_cr_trove.

(** One pass of [while True]: the [try] block and its handler. *)
Definition iteration : M unit :=
  try_except_Exception loop_body
    (fun e => logging_error (MsgError e) ;;; time_sleep 5).

Inductive loop_status : Type :=
| Running                 (* every pass so far came back to the loop head *)
| Crashed (e : exn).      (* an exception left [main] *)

(** The loop, observed for as many passes as worlds are given. *)
Fixpoint while_true (ws : list world) : list event * loop_status :=
  match ws with
  | [] => ([], Running)
  | w :: ws' =>
      match iteration w with
      | (t, Ok _) => let (t', s) := while_true ws' in (t ++ t', s)
      | (t, Raise e) => (t, Crashed e)
      end
  end.

Definition main (ws : list world) : list event * loop_status :=
  let (t, s) := while_true ws in (EvLog INFO MsgStarting :: t, s).

End Bot.

(** ** liquity_position_info.py *)

Module PositionInfo.
Import Eff.
Local Open Scope float_scope.
Local Open Scope eff_scope.

(** The dict returned by [get_trove_info]. *)
Inductive trove_info : Type :=
| Active (collateral debt collateral_ratio : float)
| NotActive.

Definition get_trove_info (a : address) : M trove_info :=
  trove <- call (fun w => troves_call w a) (EvTroves a) ;;
  coll <- Bot.scaled trove 1 ;;
  debt <- Bot.scaled trove 0 ;;
  status <- lift (index trove 3) ;;
  if (status =? 1)%Z then
    price <- Bot.get_eth_price ;;
    collateral_ratio <-
      (if 0 <? debt then
         p <- lift (float_operand price) ;;
         lift (truediv (coll * p) debt)
       else ret infinity) ;;
    ret (Active coll debt collateral_ratio)
  else ret NotActive.

End PositionInfo.

(** ** Submissions in flight, read off a trace

    The script keeps no record of what it has submitted.  To speak about
    unconfirmed submissions we compute them from the trace: a transaction is
    in flight from the moment [send_raw_transaction] returned its hash until
    [wait_for_transaction_receipt] returns a receipt for that hash. *)

Module InFlight.

Definition step (acc : list (tx_hash * address)) (ev : event)
  : list (tx_hash * address) :=
  match ev with
  | EvSendRawTransaction s (Ok h) =>
      acc ++ map (fun a => (h, a)) (tx_troves (st_txn s))
  | EvWaitReceipt h (Ok _) =>
      filter (fun p => negb (Z.eqb (fst p) h)) acc
  | _ => acc
  end.

Definition after (t : list event) : list (tx_hash * address) :=
  fold_left step t [].

(** Events that leave the set of submissions in flight as it is. *)
Definition quiet (ev : event) : bool :=
  match ev with
  | EvSendRawTransaction _ (Ok _) | EvWaitReceipt _ (Ok _) => false
  | _ => true
  end.

(** Number of unconfirmed submissions for position [a]. *)
Definition pending_for (a : address) (fl : list (tx_hash * address)) : nat :=
  List.length (filter (fun p => String.eqb (snd p) a) fl).

(** Along the whole trace [t], started with [acc] in flight, never more
    than one submission is unconfirmed. *)
Fixpoint at_most_one (acc : list (tx_hash * address)) (t : list event) : bool :=
  match t with
  | [] => true
  | ev :: t' =>
      let acc' := step acc ev in
      (List.length acc' <=? 1)%nat && at_most_one acc' t'
  end.

(** Calls to [send_raw_transaction] in a trace, whatever their outcome. *)
Definition is_send (ev : event) : bool :=
  match ev with EvSendRawTransaction _ _ => true | _ => false end.

Definition count_sends (t : list event) : nat :=
  List.length (filter is_send t).

(** [ev] asks the node about transaction [h]. *)
Definition asks_about (h : tx_hash) (ev : event) : bool :=
  match ev with
  | EvWaitReceipt h' _ => Z.eqb h h'
  | _ => false
  end.

(** A second submission for a position whose first confirmation wait ended
    in [TimeExhausted], while nothing in between asked the node about the
    first transaction again. *)
Definition resubmitted_after_timeout (t : list event) : Prop :=
  exists pre s1 h1 mid0 mid s2 r2 suf,
    t = pre ++ EvSendRawTransaction s1 (Ok h1) :: mid0
            ++ EvWaitReceipt h1 (Raise TimeExhausted) :: mid
            ++ EvSendRawTransaction s2 r2 :: suf
    /\ tx_troves (st_txn s1) = tx_troves (st_txn s2)
    /\ forallb (fun ev => negb (asks_about h1 ev)) mid = true.

End InFlight.

(** ** The numeric domain the specification asks for

    Follows the words of the specification, not the script: amounts are
    18-decimal fixed-point integers, [ratio = collateral * price / debt] with
    every quotient rounded toward zero, and a position is eligible when
    [ratio < threshold]. *)

Module SpecFixedPoint.
Local Open Scope Z_scope.

Definition SCALE : Z := 10 ^ 18.

Definition fmul (x y : Z) : Z := Z.quot (x * y) SCALE.
Definition fdiv (x y : Z) : Z := Z.quot (x * SCALE) y.

Definition ratio (collateral debt price : Z) : Z :=
  fdiv (fmul collateral price) debt.

Definition eligible (collateral debt price threshold : Z) : bool :=
  if debt =? 0 then false else ratio collateral debt price <? threshold.

(** The same decision with no rounding at all: [c * p / d < 11 / 10]
    for raw amounts [c], [d] and an integer price [p]. *)
Definition eligible_exact_11_10 (collateral debt price : Z) : bool :=
  (0 <? debt) && (collateral * price * 10 <? 11 * debt).

End SpecFixedPoint.

(** ** Concrete worlds

    The scenarios of the specification (a trove of 2.0 ETH against a debt of
    3000 at price 2000, one of 1.5 ETH at price 1900) and a few variations,
    used to run the definitions. *)

Module Scenarios.
Local Open Scope Z_scope.

Definition TROVE : address := "0x00000000000000000000000000000000000000A1"%string.

(** A world whose first trove is [TROVE] with the raw amounts [debt] and
    [coll], whose node quotes the gas price [gp], accepts a transaction
    under hash [h] and answers the confirmation wait with [receipt]. *)
Definition world_of (debt coll : Z) (price : result value)
    (gp : Z) (h : tx_hash) (receipt : result Z) : world :=
  {| first_trove_call := Ok TROVE;
     troves_call := fun _ => Ok [debt; coll; coll; 1; 0];
     price_get := price;
     transaction_count := Ok 7;
     gas_price := Ok gp;
     build_transaction := fun _ => Ok tt;
     sign_transaction := fun _ => Ok 99;
     send_raw_transaction := fun _ => Ok h;
     wait_for_transaction_receipt := fun _ => receipt |}.

Definition ETH (milli : Z) : Z := milli * 10 ^ 15.
Definition GWEI (n : Z) : Z := n * 10 ^ 9.

(** Scenario A: healthy. *)
Definition scenario_A : world :=
  world_of (ETH 3000000) (ETH 2000) (Ok (PyInt 2000)) (GWEI 30) 1001 (Ok 1).

(** Scenario B: under-collateralised, confirmation arrives. *)
Definition scenario_B : world :=
  world_of (ETH 3000000) (ETH 1500) (Ok (PyInt 1900)) (GWEI 31) 1002 (Ok 1).

(** Scenario B where the confirmation wait runs into its timeout. *)
Definition scenario_B_timeout : world :=
  world_of (ETH 3000000) (ETH 1500) (Ok (PyInt 1900)) (GWEI 30) 1001 (Raise TimeExhausted).

(** Scenario D: the price service is unreachable. *)
Definition scenario_D : world :=
  world_of (ETH 3000000) (ETH 1500) (Raise ConnectionError) (GWEI 30) 1001 (Ok 1).

(** The operator presses Ctrl-C while the head of the list is being read. *)
Definition interrupted : world :=
  {| first_trove_call := Raise KeyboardInterrupt;
     troves_call := fun _ => Raise KeyboardInterrupt;
     price_get := Raise KeyboardInterrupt;
     transaction_count := Raise KeyboardInterrupt;
     gas_price := Raise KeyboardInterrupt;
     build_transaction := fun _ => Raise KeyboardInterrupt;
     sign_transaction := fun _ => Raise KeyboardInterrupt;
     send_raw_transaction := fun _ => Raise KeyboardInterrupt;
     wait_for_transaction_receipt := fun _ => Raise KeyboardInterrupt |}.

(** A debt-free trove. *)
Definition debt_free : world :=
  world_of 0 (ETH 1500) (Ok (PyInt 1900)) (GWEI 30) 1001 (Ok 1).

(** One wei of collateral short of a ratio of exactly 1.1 at price 2000. *)
Definition one_wei_short : world :=
  world_of (ETH 3000000) (ETH 1650 - 1) (Ok (PyInt 2000)) (GWEI 30) 1001 (Ok 1).

(** Scenario B after the price has recovered to 2500. *)
Definition scenario_B_recovered : world :=
  world_of (ETH 3000000) (ETH 1500) (Ok (PyInt 2500)) (GWEI 30) 1001 (Ok 1).

(** Two passes: the first confirmation wait times out, the trove is still
    first in the list and still under-collateralised at the next poll. *)
Definition timeout_then_retry : list world :=
  [scenario_B_timeout; scenario_B].

(** Two passes whose confirmation waits both time out. *)
Definition timeout_twice : list world :=
  [scenario_B_timeout;
   world_of (ETH 3000000) (ETH 1500) (Ok (PyInt 1900)) (GWEI 31) 1002
     (Raise TimeExhausted)].

End Scenarios.

(** ** liquity_position_info.py: the yield estimate *)

Module Apr.
Local Open Scope float_scope.

(** A Python int as an exact, not yet rounded, operand of a division. *)
Definition exact_int (z : Z) : spec_float :=
  match z with
  | Z0 => S754_zero false
  | Zpos m => S754_finite false m 0
  | Zneg m => S754_finite true m 0
  end.

(** [a / b] on Python ints: the exact quotient rounded once to the nearest
    float, [ZeroDivisionError] for a zero divisor, [OverflowError] when the
    quotient is out of the float range. *)
Definition int_truediv (a b : Z) : result float :=
  if (b =? 0)%Z then Raise ZeroDivisionError
  else
    let q := SF2Prim (SF64div (exact_int a) (exact_int b)) in
    if is_infinity q then Raise OverflowError else Ok q.

(** What [calculate_apr] hands back. *)
Inductive apr_value : Type :=
| AprZero                 (* the int [0] of the early return *)
| AprPercent (f : float)
| AprNotReal.             (* Python went on with complex numbers *)

(** [x ** y] stays within the floats unless [x] is finite and negative and
    [y] has a fractional part; of the exponents [1 / days] only 1, -1 and 0
    have none. *)
Definition leaves_the_floats (x y : float) : bool :=
  (neg_infinity <? x) && (x <? 0)
  && negb ((y =? 1) || (y =? -1) || (y =? 0)).

Section Power.
(** [x ** y] on Python floats where its value is a float: the [pow] of the C
    library, or the error Python raises in its place. *)
Variable float_pow : float -> float -> result float.

Definition calculate_apr (initial_balance current_balance : float) (days : Z)
  : result apr_value :=
  if initial_balance =? 0 then Ok AprZero
  else
    match truediv current_balance initial_balance with
    | Raise e => Raise e
    | Ok growth =>
        match int_truediv 1 days with
        | Raise e => Raise e
        | Ok exponent =>
            if leaves_the_floats growth exponent then Ok AprNotReal
            else
              match float_pow growth exponent with
              | Raise e => Raise e
              | Ok root =>
                  let daily_rate := root - 1 in
                  match float_pow (1 + daily_rate) 365 with
                  | Raise e => Raise e
                  | Ok year =>
                      let apr := year - 1 in
                      Ok (AprPercent (apr * 100))
                  end
              end
        end
    end.
End Power.

End Apr.

(** ** Rounding of the specification floats

    The operations of binary64 are specified in the standard library by
    [binary_round_aux]: a mantissa is shifted to the exponent of its format,
    rounded to nearest even and shifted once more.  What follows names the
    integer arithmetic behind it. *)

Module Rounding.
Local Open Scope Z_scope.

(** What [shr_fexp] leaves of the mantissa and the exponent. *)
Definition shifted (m e k : Z) : Z * Z :=
  if 0 <? k then (m / 2 ^ k, e + k) else (m, e).

(** [binary_round_aux] in terms of integer arithmetic. *)
Definition finish (sx : bool) (m e : Z) : spec_float :=
  match m with
  | Z0 => S754_zero sx
  | Zpos p => if e <=? emax - prec then S754_finite sx p e else S754_infinity sx
  | Zneg _ => S754_nan
  end.

(** Sign and class of a rounded value. *)
Definition signed_class (sx : bool) (x : spec_float) : Prop :=
  x = S754_zero sx \/ (exists m e, x = S754_finite sx m e) \/ x = S754_infinity sx.

(** 1.0, 2.0 and -1.0. *)
Definition SF_one : spec_float := S754_finite false 4503599627370496 (-52).

Definition SF_two : spec_float := S754_finite false 4503599627370496 (-51).

Definition SF_minus_one : spec_float := S754_finite true 4503599627370496 (-52).

End Rounding.

(** ** uniswap_option_risks.py

    The amounts, the price, the rate and the volatility are Python floats,
    as the annotations of the script say, and [days] is an int.  Every
    operation on them is the binary64 operation, rounded to nearest even.
    Python raises [ZeroDivisionError] where a Python float is divided by
    zero and where an int is; what [np.sqrt], [np.log], [np.exp] and the
    SciPy distribution return is a NumPy [float64], on which a division by
    zero gives an infinity or a NaN and raises nothing.  [np.sqrt] is the
    correctly rounded square root; [np.log], [np.exp], [norm.cdf],
    [norm.pdf] and the power [volatility ** 2] of Python are parameters. *)

Module Uniswap.
Local Open Scope float_scope.

Record UniswapPosition : Type := {
  token_a : float;
  token_b : float;
  price : float;
  fee_tier : float
}.

Record greeks : Type := {
  delta : float;
  gamma : float;
  vega : float;
  theta : float
}.

(** Lines 14 and 17: [k = position.token_a * position.token_b] and
    [strike = np.sqrt(k / (position.token_a * position.token_b))]. *)
Definition implied_strike (position : UniswapPosition) : result float :=
  let k := token_a position * token_b position in
  match truediv k (token_a position * token_b position) with
  | Ok q => Ok (PrimFloat.sqrt q)
  | Raise e => Raise e
  end.

Section Functions.
(** [np.log], [np.exp], [scipy.stats.norm.cdf] and [scipy.stats.norm.pdf]
    on a [float64]. *)
Variables np_log np_exp norm_cdf norm_pdf : float -> float.
(** [x ** y] on Python floats: the [pow] of the C library, or the error
    Python raises in its place. *)
Variable float_pow : float -> float -> result float.

(** Lines 19 to 47, for the strike computed before them. *)
Definition risks_at_strike (strike : float)
    (position : UniswapPosition) (days : Z)
    (risk_free_rate volatility : float) : result greeks :=
  match Apr.int_truediv days 365 with
  | Raise e => Raise e
  | Ok T =>
      match float_pow volatility 2 with
      | Raise e => Raise e
      | Ok squared =>
          let d1 := (np_log (price position / strike)
                     + (risk_free_rate + 0.5 * squared) * T)
                    / (volatility * PrimFloat.sqrt T) in
          let d2 := d1 - volatility * PrimFloat.sqrt T in
          let delta0 := norm_cdf d1 - 1 in
          let gamma0 :=
            norm_pdf d1 / (price position * volatility * PrimFloat.sqrt T) in
          let vega0 := price position * norm_pdf d1 * PrimFloat.sqrt T / 100 in
          let theta0 :=
            ((- price position) * norm_pdf d1 * volatility
               / (2 * PrimFloat.sqrt T)
             - risk_free_rate * strike * np_exp ((- risk_free_rate) * T)
               * norm_cdf (- d2))
            / 365 in
          let position_value :=
            token_a position + token_b position * price position in
          match truediv position_value (price position * 100) with
          | Raise e => Raise e
          | Ok adjustment_factor =>
              Ok {| delta := delta0 * adjustment_factor;
                    gamma := gamma0 * adjustment_factor;
                    vega := vega0 * adjustment_factor;
                    theta := theta0 * adjustment_factor |}
          end
      end
  end.

Definition calculate_uniswap_option_risks
    (position : UniswapPosition) (days : Z)
    (risk_free_rate volatility : float) : result greeks :=
  match implied_strike position with
  | Raise e => Raise e
  | Ok strike => risks_at_strike strike position days risk_free_rate volatility
  end.
End Functions.

(** The argument is a Python float; [np.sqrt] makes everything after it a
    [float64], so nothing raises. *)
Definition calculate_impermanent_loss (price_change_ratio : float) : float :=
  2 * PrimFloat.sqrt price_change_ratio / (1 + price_change_ratio) - 1.

(** The same expression on the specification floats. *)
Definition SF_impermanent_loss (r : spec_float) : spec_float :=
  SF64sub
    (SF64div (SF64mul Rounding.SF_two (SF64sqrt r)) (SF64add Rounding.SF_one r))
    Rounding.SF_one.

(** The position of [main]: 100000, 1000, 2000 and 0.003. *)
Definition main_position : UniswapPosition :=
  {| token_a := 100000; token_b := 1000; price := 2000;
     fee_tier := 0x1.89374bc6a7efap-9 |}.

(** Two pools of equal amounts [2 ** 600] and [2 ** -600]. *)
Definition large_pool : UniswapPosition :=
  {| token_a := 0x1p+600; token_b := 0x1p+600; price := 2000;
     fee_tier := 0x1.89374bc6a7efap-9 |}.

Definition small_pool : UniswapPosition :=
  {| token_a := 0x1p-600; token_b := 0x1p-600; price := 2000;
     fee_tier := 0x1.89374bc6a7efap-9 |}.

End Uniswap.

(** ** defi_strategy_comparison.py: the covered call

    The strategy comparison follows the position report in the same source
    file.  Of it, the valuation of the covered call is embedded, with its
    numbers read as reals: the day counts are ints, and the sign of
    [(days_to_expiration - days) / 365] decides which branch is taken. *)

Module Strategy.
Local Open Scope R_scope.


Section NormalDistribution.
(** [scipy.stats.norm.cdf]. *)
Variable norm_cdf : R -> R.


End NormalDistribution.

End Strategy.

(** ** Kinds of events and values, for the statements about traces *)

Module Trace.

Definition not_send (ev : event) : bool := negb (InFlight.is_send ev).

(** Events other than a confirmation wait and its success message. *)
Definition before_wait (ev : event) : bool :=
  match ev with
  | EvWaitReceipt _ _ | EvLog INFO (MsgComplete _) => false
  | _ => true
  end.

(** What a pass leaves in the trace after it has waited for [h]. *)
Definition after_wait (w : world) (h : tx_hash) : list event :=
  match wait_for_transaction_receipt w h with
  | Ok _ => [EvLog INFO (MsgComplete h); EvSleep 15]
  | Raise e => if is_Exception e then [EvLog ERROR (MsgError e); EvSleep 5] else []
  end.

(** [isinstance(v, (int, float))]: a value that Python takes as a number.
    [True] and [False] are among them. *)
Definition is_number (v : value) : bool :=
  match v with
  | PyInt _ | PyFloat _ | PyBool _ => true
  | PyStr _ | PyNone | PyList _ | PyDict _ => false
  end.

(** The exception with which an external call was answered, if it was. *)
Definition raised {A} (r : result A) : option exn :=
  match r with
  | Ok _ => None
  | Raise e => Some e
  end.

(** A read of chain data or of the price that failed with [e]: the head of
    the sorted list, the trove, the price request, the transaction count
    and the gas price. *)
Definition failed_read (ev : event) : option exn :=
  match ev with
  | EvFirstTrove r => raised r
  | EvTroves _ r => raised r
  | EvHttpGetPrice r => raised r
  | EvTransactionCount _ r => raised r
  | EvGasPrice r => raised r
  | _ => None
  end.

(** Any external call that failed with [e]. *)
Definition failed_call (ev : event) : option exn :=
  match ev with
  | EvFirstTrove r => raised r
  | EvTroves _ r => raised r
  | EvHttpGetPrice r => raised r
  | EvTransactionCount _ r => raised r
  | EvGasPrice r => raised r
  | EvBuildTransaction _ r => raised r
  | EvSignTransaction _ r => raised r
  | EvSendRawTransaction _ r => raised r
  | EvWaitReceipt _ r => raised r
  | EvLog _ _ | EvSleep _ => None
  end.

(** A computation stops at the first external call that fails: the failed
    call is the last entry of its trace and its exception is raised. *)
Definition stops_at_failure {A} (m : Eff.M A) : Prop :=
  forall w ev e,
    failed_call ev = Some e -> In ev (fst (m w)) ->
    exists t, m w = (t ++ [ev], Raise e).

End Trace.

(** ** More worlds *)

Module MoreScenarios.
Import Scenarios.
Local Open Scope Z_scope.


(** Scenario B while the price service answers [null]. *)
Definition price_null : world :=
  world_of (ETH 3000000) (ETH 1500) (Ok PyNone) (GWEI 30) 1003 (Ok 1).

(** Scenario B with a receipt of status 0: the transaction reverted. *)
Definition scenario_B_reverted : world :=
  world_of (ETH 3000000) (ETH 1500) (Ok (PyInt 1900)) (GWEI 30) 1004 (Ok 0).

(** The node answers with a tuple of one component. *)
Definition short_tuple : world :=
  {| first_trove_call := Ok TROVE;
     troves_call := fun _ => Ok [ETH 3000000];
     price_get := Ok (PyInt 1900);
     transaction_count := Ok 7;
     gas_price := Ok (GWEI 30);
     build_transaction := fun _ => Ok tt;
     sign_transaction := fun _ => Ok 99;
     send_raw_transaction := fun _ => Ok 1005;
     wait_for_transaction_receipt := fun _ => Ok 1 |}.

(** A trove closed by its owner: status 2, nothing left in it. *)
Definition closed_trove : world :=
  {| first_trove_call := Ok TROVE;
     troves_call := fun _ => Ok [0; 0; 0; 2; 0];
     price_get := Ok (PyInt 1900);
     transaction_count := Ok 7;
     gas_price := Ok (GWEI 30);
     build_transaction := fun _ => Ok tt;
     sign_transaction := fun _ => Ok 99;
     send_raw_transaction := fun _ => Ok 1006;
     wait_for_transaction_receipt := fun _ => Ok 1 |}.

(** Scenario B while the price service answers [false]. *)
Definition price_false : world :=
  world_of (ETH 3000000) (ETH 1500) (Ok (PyBool false)) (GWEI 30) 1007 (Ok 1).

(** Scenario B while the node fails to quote a gas price. *)
Definition gas_price_unreachable : world :=
  {| first_trove_call := Ok TROVE;
     troves_call := fun _ => Ok [ETH 3000000; ETH 1500; ETH 1500; 1; 0];
     price_get := Ok (PyInt 1900);
     transaction_count := Ok 7;
     gas_price := Raise ConnectionError;
     build_transaction := fun _ => Ok tt;
     sign_transaction := fun _ => Ok 99;
     send_raw_transaction := fun _ => Ok 1008;
     wait_for_transaction_receipt := fun _ => Ok 1 |}.

(** Scenario B while the node fails to give the transaction count. *)
Definition nonce_unreachable : world :=
  {| first_trove_call := Ok TROVE;
     troves_call := fun _ => Ok [ETH 3000000; ETH 1500; ETH 1500; 1; 0];
     price_get := Ok (PyInt 1900);
     transaction_count := Raise ConnectionError;
     gas_price := Ok (GWEI 30);
     build_transaction := fun _ => Ok tt;
     sign_transaction := fun _ => Ok 99;
     send_raw_transaction := fun _ => Ok 1009;
     wait_for_transaction_receipt := fun _ => Ok 1 |}.


End MoreScenarios.

(** * Properties *)

(** ** Binary64 comparisons *)

Section FloatFacts.
Local Open Scope float_scope.

Lemma ltb_irrefl (x : float) : (x <? x) = false.
Proof.
  rewrite ltb_spec.
  destruct (Prim2SF x) as [s | s | | s m e]; try reflexivity.
  - destruct s; reflexivity.
  - unfold SFltb, SFcompare.
    destruct s; rewrite Z.compare_refl, Pos.compare_cont_refl; reflexivity.
Qed.


Lemma positive_not_zero (d : float) : (0 <? d) = true -> (d =? 0) = false.
Proof.
  rewrite ltb_spec, eqb_spec.
  change (Prim2SF 0) with (S754_zero false).
  destruct (Prim2SF d) as [s | s | | s m e]; try discriminate.
  - destruct s; [discriminate | reflexivity].
  - destruct s; [discriminate | reflexivity].
Qed.

Lemma infinity_never_below (t : float) : (infinity <? t) = false.
Proof.
  rewrite ltb_spec.
  change (Prim2SF infinity) with (S754_infinity false).
  destruct (Prim2SF t) as [s | s | | s m e]; try reflexivity.
  destruct s; reflexivity.
Qed.

Lemma truediv_positive (x d : float) :
  (0 <? d) = true -> truediv x d = Ok (x / d).
Proof.
  intros H. unfold truediv. now rewrite (positive_not_zero d H).
Qed.

Lemma from_wad_cases (z : Z) :
  Bot.from_wad z = Ok (Z2F z / Bot.WAD) \/ Bot.from_wad z = Raise OverflowError.
Proof.
  unfold Bot.from_wad, float_of_int.
  destruct (is_infinity (Z2F z)); [now right | now left].
Qed.

Lemma from_wad_ok (z : Z) (f : float) :
  Bot.from_wad z = Ok f -> f = Z2F z / Bot.WAD.
Proof.
  intros H. destruct (from_wad_cases z) as [E | E]; rewrite E in H; congruence.
Qed.

Lemma from_wad_zero : Bot.from_wad 0 = Ok 0.
Proof. reflexivity. Qed.

End FloatFacts.

(** ** Running computations of the effect monad *)

Section MonadLaws.
Import Eff.
Context {A B : Type}.

Lemma bind_ok (m : M A) (k : A -> M B) w t1 a :
  m w = (t1, Ok a) -> bind m k w = (t1 ++ fst (k a w), snd (k a w)).
Proof. intros H. unfold bind. rewrite H. now destruct (k a w). Qed.

Lemma bind_raise (m : M A) (k : A -> M B) w t1 e :
  m w = (t1, Raise e) -> bind m k w = (t1, Raise e).
Proof. intros H. unfold bind. now rewrite H. Qed.

Lemma bind_quiet (m : M A) (k : A -> M B) w :
  forallb InFlight.quiet (fst (m w)) = true ->
  (forall a, forallb InFlight.quiet (fst (k a w)) = true) ->
  forallb InFlight.quiet (fst (bind m k w)) = true.
Proof.
  intros Hm Hk. unfold bind.
  destruct (m w) as [t1 [a | e]]; cbn [fst] in *; [| exact Hm].
  specialize (Hk a). destruct (k a w) as [t2 r]; cbn [fst] in *.
  rewrite forallb_app, Hm, Hk. reflexivity.
Qed.

End MonadLaws.

Lemma try_except_ok body handler w t1 u :
  body w = (t1, Ok u) -> Eff.try_except_Exception body handler w = (t1, Ok u).
Proof. intros H. unfold Eff.try_except_Exception. now rewrite H. Qed.

Lemma try_except_caught body handler w t1 e :
  body w = (t1, Raise e) -> is_Exception e = true ->
  Eff.try_except_Exception body handler w
  = (t1 ++ fst (handler e w), snd (handler e w)).
Proof.
  intros H He. unfold Eff.try_except_Exception. rewrite H, He.
  now destruct (handler e w).
Qed.

(** ** Bookkeeping of submissions in flight *)

Section InFlightFacts.
Import InFlight.

Lemma step_quiet acc ev : quiet ev = true -> step acc ev = acc.
Proof.
  destruct ev as [ | | | | | | | s [h | e] | h [r | e] | | ]; cbn; congruence.
Qed.

Lemma fold_quiet t : forall acc, forallb quiet t = true -> fold_left step t acc = acc.
Proof.
  induction t as [| ev t IH]; intros acc H; [reflexivity |].
  cbn in H. apply andb_prop in H as [H1 H2].
  cbn. rewrite (step_quiet _ _ H1). now apply IH.
Qed.

Lemma at_most_one_app t1 : forall acc t2,
  at_most_one acc (t1 ++ t2)
  = at_most_one acc t1 && at_most_one (fold_left step t1 acc) t2.
Proof.
  induction t1 as [| ev t1 IH]; intros acc t2; [reflexivity |].
  cbn. rewrite IH. now rewrite andb_assoc.
Qed.

Lemma at_most_one_quiet t : forall acc,
  forallb quiet t = true -> List.length acc <= 1 -> at_most_one acc t = true.
Proof.
  induction t as [| ev t IH]; intros acc H Hl; [reflexivity |].
  cbn in H. apply andb_prop in H as [H1 H2].
  cbn. rewrite (step_quiet _ _ H1).
  apply andb_true_intro. split; [now apply Nat.leb_le | now apply IH].
Qed.

Lemma at_most_one_prefix pre : forall acc suf,
  List.length acc <= 1 ->
  at_most_one acc (pre ++ suf) = true ->
  List.length (fold_left step pre acc) <= 1.
Proof.
  induction pre as [| ev pre IH]; intros acc suf Hl H; [exact Hl |].
  cbn in H. apply andb_prop in H as [H1 H2].
  cbn. apply (IH _ suf); [now apply Nat.leb_le | exact H2].
Qed.

Lemma pending_for_le a fl : pending_for a fl <= List.length fl.
Proof. unfold pending_for. apply filter_length_le. Qed.

Lemma count_sends_app t1 t2 :
  count_sends (t1 ++ t2) = count_sends t1 + count_sends t2.
Proof. unfold count_sends. now rewrite filter_app, length_app. Qed.

Lemma quiet_in_flight t :
  forallb quiet t = true -> at_most_one [] t = true /\ fold_left step t [] = [].
Proof.
  intros Q. split; [apply at_most_one_quiet; [exact Q | cbn; lia] | now apply fold_quiet].
Qed.

(** With quiet events around them, a submission followed by its receipt
    never holds more than one transaction and leaves none in flight. *)
Lemma submit_confirm_in_flight q1 s h a q2 r q3 :
  forallb quiet q1 = true -> forallb quiet q2 = true -> forallb quiet q3 = true ->
  tx_troves (st_txn s) = [a] ->
  let t := q1 ++ EvSendRawTransaction s (Ok h) :: q2 ++ EvWaitReceipt h (Ok r) :: q3 in
  at_most_one [] t = true /\ fold_left step t [] = [].
Proof.
  intros Q1 Q2 Q3 T t. subst t.
  rewrite at_most_one_app, fold_left_app, (fold_quiet q1 [] Q1),
    (at_most_one_quiet q1 [] Q1) by (cbn; lia).
  cbn [at_most_one fold_left step andb]. rewrite T. cbn [map app List.length Nat.leb].
  rewrite at_most_one_app, fold_left_app, (fold_quiet q2 _ Q2),
    (at_most_one_quiet q2 _ Q2) by (cbn; lia).
  cbn [at_most_one fold_left step andb filter fst negb]. rewrite Z.eqb_refl.
  cbn [negb List.length Nat.leb andb].
  now apply quiet_in_flight.
Qed.

End InFlightFacts.

(** ** The passes of the loop *)

Section Passes.
Import InFlight.

Ltac quiet_steps :=
  repeat first
    [ reflexivity
    | apply bind_quiet; [| intros ?]
    | match goal with
      | |- context [if ?c then _ else _] => destruct c
      end ].

Lemma get_trove_details_quiet w a :
  forallb quiet (fst (Bot.get_trove_details a w)) = true.
Proof. unfold Bot.get_trove_details, Bot.scaled. quiet_steps. Qed.

Lemma read_lowest_trove_quiet w :
  forallb quiet (fst (Bot.read_lowest_trove w)) = true.
Proof.
  unfold Bot.read_lowest_trove.
  apply bind_quiet; [reflexivity | intros a; apply get_trove_details_quiet].
Qed.

Lemma get_trove_details_positive_debt w a debt_raw coll_raw rest price coll debt p :
  troves_call w a = Ok (debt_raw :: coll_raw :: rest) ->
  Bot.from_wad coll_raw = Ok coll ->
  Bot.from_wad debt_raw = Ok debt ->
  (0 <? debt)%float = true ->
  price_get w = Ok price ->
  float_operand price = Ok p ->
  Bot.get_trove_details a w
  = ([EvTroves a (Ok (debt_raw :: coll_raw :: rest)); EvHttpGetPrice (Ok price)],
     Ok (Some {| td_address := a; td_collateral := coll; td_debt := debt;
                 td_collateral_ratio := (coll * p / debt)%float |})).
Proof.
  intros Ht Hc Hd Hpos Hp Hop.
  unfold Bot.get_trove_details, Bot.scaled, Bot.get_eth_price,
    Eff.bind, Eff.call, Eff.lift, Eff.ret, index.
  rewrite Ht. cbn [nth_error app]. rewrite Hc, Hd. cbn [app]. rewrite Hpos, Hp, Hop.
  rewrite (truediv_positive _ _ Hpos). reflexivity.
Qed.

Lemma get_trove_details_debt_free w a coll_raw rest :
  troves_call w a = Ok (0%Z :: coll_raw :: rest) ->
  Bot.get_trove_details a w
  = ([EvTroves a (Ok (0%Z :: coll_raw :: rest))],
     match Bot.from_wad coll_raw with
     | Ok _ => Ok None
     | Raise e => Raise e
     end).
Proof.
  intros Ht.
  unfold Bot.get_trove_details, Bot.scaled, Eff.bind, Eff.call, Eff.lift, Eff.ret, index.
  rewrite Ht. cbn [nth_error app].
  destruct (Bot.from_wad coll_raw) as [c | e]; [| reflexivity].
  rewrite from_wad_zero. reflexivity.
Qed.

Lemma get_trove_info_debt_free w a coll_raw stake rest price c :
  troves_call w a = Ok (0%Z :: coll_raw :: stake :: 1%Z :: rest) ->
  Bot.from_wad coll_raw = Ok c ->
  price_get w = Ok price ->
  PositionInfo.get_trove_info a w
  = ([EvTroves a (Ok (0%Z :: coll_raw :: stake :: 1%Z :: rest));
      EvHttpGetPrice (Ok price)],
     Ok (PositionInfo.Active c 0%float infinity)).
Proof.
  intros Ht Hc Hp.
  unfold PositionInfo.get_trove_info, Bot.scaled, Bot.get_eth_price,
    Eff.bind, Eff.call, Eff.lift, Eff.ret, index.
  rewrite Ht. cbn [nth_error app]. rewrite Hc, from_wad_zero.
  cbn [nth_error app Z.eqb Pos.eqb]. rewrite Hp. reflexivity.
Qed.

Lemma read_lowest_trove_first w a :
  first_trove_call w = Ok a ->
  Bot.read_lowest_trove w
  = (EvFirstTrove (Ok a) :: fst (Bot.get_trove_details a w),
     snd (Bot.get_trove_details a w)).
Proof.
  intros H. unfold Bot.read_lowest_trove, Eff.bind, Eff.call. rewrite H.
  now destruct (Bot.get_trove_details a w) as [t r].
Qed.

Lemma act_on_above w d :
  Bot.eligible Bot.LIQUIDATION_THRESHOLD d = false ->
  Bot.act_on (Some d) w
  = ([EvLog INFO (MsgLowest d); EvLog INFO MsgAbove; EvSleep 15], Ok tt).
Proof.
  intros H. unfold Bot.act_on, Eff.bind, Bot.logging_info, Bot.time_sleep, Eff.emit.
  now rewrite H.
Qed.

Lemma act_on_none w :
  Bot.act_on None w = ([EvLog INFO MsgNoTroves; EvSleep 15], Ok tt).
Proof. reflexivity. Qed.

(** Every run of [liquidate_trove] either raises after a trace that changes
    nothing in flight, or returns the hash of the one transaction it sent. *)
Lemma liquidate_trove_cases (w : world) (a : address) :
  (exists t e,
      Bot.liquidate_trove a w = (t, Raise e)
      /\ forallb quiet t = true
      /\ count_sends t <= 1)
  \/ (exists pre s h,
      Bot.liquidate_trove a w
      = (pre ++ [EvSendRawTransaction s (Ok h); EvLog INFO (MsgSent h)], Ok h)
      /\ forallb quiet pre = true
      /\ count_sends pre = 0
      /\ tx_troves (st_txn s) = [a]).
Proof.
  unfold Bot.liquidate_trove, Eff.bind, Eff.call, Eff.ret, Bot.logging_info, Eff.emit.
  destruct (transaction_count w) as [nonce | e]; [| left; eauto 6].
  destruct (gas_price w) as [gp | e]; [| left; eauto 6].
  destruct (build_transaction w _) as [[] | e]; [| left; cbn; eauto 6].
  destruct (sign_transaction w _) as [sig | e]; [| left; cbn; eauto 6].
  destruct (send_raw_transaction w _) as [h | e]; [| left; cbn; eauto 6].
  right. cbn.
  eexists [_; _; _; _], _, h. cbn. eauto.
Qed.

(** What [act_on] leaves in the trace for a trove below the threshold. *)
Lemma act_on_eligible_cases w d :
  Bot.eligible Bot.LIQUIDATION_THRESHOLD d = true ->
  (exists t e,
      Bot.act_on (Some d) w
      = (EvLog INFO (MsgLowest d) :: EvLog INFO (MsgAttempting (td_address d)) :: t,
         Raise e)
      /\ forallb quiet t = true)
  \/ (exists pre s h,
      forallb quiet pre = true
      /\ tx_troves (st_txn s) = [td_address d]
      /\ Bot.act_on (Some d) w
         = (EvLog INFO (MsgLowest d) :: EvLog INFO (MsgAttempting (td_address d))
              :: pre
              ++ EvSendRawTransaction s (Ok h) :: EvLog INFO (MsgSent h)
              :: EvWaitReceipt h (wait_for_transaction_receipt w h)
              :: match wait_for_transaction_receipt w h with
                 | Ok _ => [EvLog INFO (MsgComplete h); EvSleep 15]
                 | Raise _ => []
                 end,
            match wait_for_transaction_receipt w h with
            | Ok _ => Ok tt
            | Raise e => Raise e
            end)).
Proof.
  intros E.
  unfold Bot.act_on, Eff.bind, Eff.call, Bot.logging_info, Bot.time_sleep, Eff.emit.
  rewrite E.
  destruct (liquidate_trove_cases w (td_address d))
    as [(t & e & -> & Q & _) | (pre & s & h & L & Q & _ & T)].
  - left. exists t, e. cbn. auto.
  - right. exists pre, s, h. rewrite L.
    repeat split; try assumption.
    destruct (wait_for_transaction_receipt w h) as [r | e]; cbn;
      rewrite <- !app_assoc; reflexivity.
Qed.

Lemma loop_body_read_ok w t o :
  Bot.read_lowest_trove w = (t, Ok o) ->
  Bot.loop_body w = (t ++ fst (Bot.act_on o w), snd (Bot.act_on o w)).
Proof. intros H. unfold Bot.loop_body. now apply bind_ok. Qed.

Lemma iteration_of_body w t r :
  Bot.loop_body w = (t, r) ->
  Bot.iteration w
  = match r with
    | Ok u => (t, Ok u)
    | Raise e =>
        if is_Exception e
        then (t ++ [EvLog ERROR (MsgError e); EvSleep 5], Ok tt)
        else (t, Raise e)
    end.
Proof.
  intros H. unfold Bot.iteration, Eff.try_except_Exception. rewrite H.
  destruct r as [u | e]; [reflexivity |].
  destruct (is_Exception e); reflexivity.
Qed.

Lemma while_true_continues w ws t u :
  Bot.iteration w = (t, Ok u) ->
  Bot.while_true (w :: ws) = (t ++ fst (Bot.while_true ws), snd (Bot.while_true ws)).
Proof.
  intros H. cbn [Bot.while_true]. rewrite H. now destruct (Bot.while_true ws).
Qed.

End Passes.

(** ** Health evaluation *)




(** C2.  For a trove whose debt is zero, whatever its collateral and
    whatever the price: [get_trove_details] reads no price, performs no
    division by the debt and returns no assessment, so [main] neither
    announces nor sends a liquidation; [get_trove_info] reports the ratio
    +infinity, which is below no threshold.  Dividing by this debt would
    raise [ZeroDivisionError], and neither function does. *)
Theorem debt_free_trove_never_eligible
    (w : world) (a : address) (coll_raw : Z) (rest : list Z) :
  troves_call w a = Ok (0%Z :: coll_raw :: rest) ->
  fst (Bot.get_trove_details a w) = [EvTroves a (Ok (0%Z :: coll_raw :: rest))]
  /\ (snd (Bot.get_trove_details a w) = Ok None
      \/ snd (Bot.get_trove_details a w) = Raise OverflowError)
  /\ Bot.reports_eligible (snd (Bot.get_trove_details a w)) = false
  /\ (first_trove_call w = Ok a ->
      forall ev, In ev (fst (Bot.iteration w)) ->
        InFlight.is_send ev = false /\ ev <> EvLog INFO (MsgAttempting a))
  /\ (forall c stake rest' price,
        rest = stake :: 1%Z :: rest' ->
        Bot.from_wad coll_raw = Ok c ->
        price_get w = Ok price ->
        snd (PositionInfo.get_trove_info a w)
        = Ok (PositionInfo.Active c 0%float infinity))
  /\ (forall threshold, (infinity <? threshold)%float = false)
  /\ (forall x, truediv x 0%float = Raise ZeroDivisionError).
Proof.
  intros Ht.
  pose proof (get_trove_details_debt_free w a coll_raw _ Ht) as G.
  split; [now rewrite G |].
  split.
  { rewrite G. cbn [snd].
    destruct (from_wad_cases coll_raw) as [-> | ->]; [now left | now right]. }
  split.
  { rewrite G. cbn [snd]. now destruct (Bot.from_wad coll_raw). }
  split.
  { intros Hf.
    pose proof (read_lowest_trove_first w a Hf) as R. rewrite G in R. cbn [fst snd] in R.
    destruct (Bot.from_wad coll_raw) as [c | e] eqn:E.
    - pose proof (loop_body_read_ok _ _ _ R) as L. rewrite act_on_none in L.
      cbn [fst snd] in L. rewrite (iteration_of_body _ _ _ L). cbn.
      intros ev [<- | [<- | [<- | [<- | []]]]]; split; (reflexivity || discriminate).
    - destruct (from_wad_cases coll_raw) as [E' | E']; rewrite E' in E; [discriminate |].
      injection E as <-.
      assert (L : Bot.loop_body w
                  = ([EvFirstTrove (Ok a); EvTroves a (Ok (0%Z :: coll_raw :: rest))],
                     Raise OverflowError)).
      { unfold Bot.loop_body. now apply bind_raise. }
      rewrite (iteration_of_body _ _ _ L). cbn.
      intros ev [<- | [<- | [<- | [<- | []]]]]; split; (reflexivity || discriminate). }
  split.
  { intros c stake rest' price -> Hc Hp.
    now rewrite (get_trove_info_debt_free w a coll_raw stake rest' price c Ht Hc Hp). }
  split; [apply infinity_never_below | reflexivity].
Qed.

Lemma debt_free_trove_never_eligible_witness :
  fst (Bot.get_trove_details Scenarios.TROVE Scenarios.debt_free)
  = [EvTroves Scenarios.TROVE (Ok [0%Z; Scenarios.ETH 1500; Scenarios.ETH 1500; 1%Z; 0%Z])]
  /\ Bot.reports_eligible (snd (Bot.get_trove_details Scenarios.TROVE Scenarios.debt_free))
     = false.
Proof.
  pose proof (debt_free_trove_never_eligible Scenarios.debt_free Scenarios.TROVE
                (Scenarios.ETH 1500) [Scenarios.ETH 1500; 1%Z; 0%Z] eq_refl)
    as (H1 & _ & H3 & _).
  split; [exact H1 | exact H3].
Defined.

(** ** The monitor loop *)

Section LoopInvariant.
Import InFlight.

Lemma iteration_in_flight w :
  (forall h, is_ok (wait_for_transaction_receipt w h) = true) ->
  at_most_one [] (fst (Bot.iteration w)) = true
  /\ fold_left step (fst (Bot.iteration w)) [] = [].
Proof.
  intros Hw.
  pose proof (read_lowest_trove_quiet w) as Q.
  destruct (Bot.read_lowest_trove w) as [t1 [[d |] | e]] eqn:R; cbn [fst] in Q.
  - destruct (Bot.eligible Bot.LIQUIDATION_THRESHOLD d) eqn:E.
    + pose proof (loop_body_read_ok _ _ _ R) as L.
      destruct (act_on_eligible_cases w d E)
        as [(t & e & A & Qt) | (pre & s & h & Qp & T & A)];
        rewrite A in L; cbn [fst snd] in L.
      * rewrite (iteration_of_body _ _ _ L).
        apply quiet_in_flight.
        destruct (is_Exception e); cbn [fst];
          rewrite ?forallb_app, Q, ?forallb_app; cbn; rewrite Qt; reflexivity.
      * specialize (Hw h). destruct (wait_for_transaction_receipt w h) as [r | e];
          [| discriminate Hw].
        rewrite (iteration_of_body _ _ _ L). cbn [fst].
        replace (t1 ++ EvLog INFO (MsgLowest d) :: EvLog INFO (MsgAttempting (td_address d))
                   :: pre ++ EvSendRawTransaction s (Ok h) :: EvLog INFO (MsgSent h)
                   :: EvWaitReceipt h (Ok r) :: [EvLog INFO (MsgComplete h); EvSleep 15])
          with ((t1 ++ EvLog INFO (MsgLowest d)
                    :: EvLog INFO (MsgAttempting (td_address d)) :: pre)
                  ++ EvSendRawTransaction s (Ok h) :: [EvLog INFO (MsgSent h)]
                  ++ EvWaitReceipt h (Ok r) :: [EvLog INFO (MsgComplete h); EvSleep 15])
          by (rewrite <- app_assoc; reflexivity).
        apply submit_confirm_in_flight with (a := td_address d);
          try reflexivity; try assumption.
        rewrite forallb_app, Q. cbn. exact Qp.
    + pose proof (loop_body_read_ok _ _ _ R) as L.
      rewrite (act_on_above w d E) in L. cbn [fst snd] in L.
      rewrite (iteration_of_body _ _ _ L). apply quiet_in_flight.
      cbn [fst]. rewrite forallb_app, Q. reflexivity.
  - pose proof (loop_body_read_ok _ _ _ R) as L.
    rewrite act_on_none in L. cbn [fst snd] in L.
    rewrite (iteration_of_body _ _ _ L). apply quiet_in_flight.
    cbn [fst]. rewrite forallb_app, Q. reflexivity.
  - assert (L : Bot.loop_body w = (t1, Raise e))
      by (unfold Bot.loop_body; now apply bind_raise).
    rewrite (iteration_of_body _ _ _ L). apply quiet_in_flight.
    destruct (is_Exception e); cbn [fst]; rewrite ?forallb_app, Q; reflexivity.
Qed.

Lemma while_true_in_flight ws :
  (forall w h, In w ws -> is_ok (wait_for_transaction_receipt w h) = true) ->
  at_most_one [] (fst (Bot.while_true ws)) = true.
Proof.
  induction ws as [| w ws IH]; intros Hw; [reflexivity |].
  cbn [Bot.while_true].
  destruct (iteration_in_flight w (fun h => Hw w h (or_introl eq_refl))) as [I1 I2].
  destruct (Bot.iteration w) as [t [u | e]]; cbn [fst] in *; [| exact I1].
  assert (IH' := IH (fun w' h H => Hw w' h (or_intror H))).
  destruct (Bot.while_true ws) as [t' s]. cbn [fst] in *.
  now rewrite at_most_one_app, I1, I2.
Qed.

(** C3, as the specification states it, fails: the script keeps no set of
    positions in flight, and after two confirmation waits that timed out two
    submissions for the same trove are unconfirmed at once. *)
Lemma two_pending_submissions_for_one_trove :
  pending_for Scenarios.TROVE (after (fst (Bot.main Scenarios.timeout_twice))) = 2.
Proof. vm_compute. reflexivity. Qed.

(** C3, amended.  The loop is sequential: a pass submits at most one
    transaction and blocks on its receipt before the next pass.  As long as
    every confirmation wait returns a receipt, at every point of every run at
    most one submission is unconfirmed for any position. *)
Theorem sequential_loop_one_pending_while_waits_return
    (ws : list world) (pre suf : list event) (a : address) :
  (forall w h, In w ws -> is_ok (wait_for_transaction_receipt w h) = true) ->
  fst (Bot.main ws) = pre ++ suf ->
  pending_for a (after pre) <= 1.
Proof.
  intros Hw Hsplit.
  pose proof (while_true_in_flight ws Hw) as W.
  unfold Bot.main in Hsplit. destruct (Bot.while_true ws) as [t s]. cbn [fst] in *.
  etransitivity; [apply pending_for_le |].
  apply (at_most_one_prefix pre [] suf); [cbn; lia |].
  rewrite <- Hsplit. cbn. exact W.
Qed.

Lemma sequential_loop_one_pending_witness :
  pending_for Scenarios.TROVE
    (after (firstn 11 (fst (Bot.main [Scenarios.scenario_B; Scenarios.scenario_A]))))
  <= 1.
Proof.
  apply (sequential_loop_one_pending_while_waits_return
           [Scenarios.scenario_B; Scenarios.scenario_A]
           _ (skipn 11 (fst (Bot.main [Scenarios.scenario_B; Scenarios.scenario_A])))).
  - intros w h [<- | [<- | []]]; reflexivity.
  - symmetry. apply firstn_skipn.
Defined.

(** C4, as the specification states it, fails: after a confirmation wait
    that ended in [TimeExhausted] the next pass submits a second liquidation
    for the same trove, with nothing in between but the error log entry, the
    sleep and the three reads of the next poll. *)
Lemma timed_out_liquidation_is_resubmitted :
  resubmitted_after_timeout (fst (Bot.main Scenarios.timeout_then_retry)).
Proof.
  pose (t := fst (Bot.main Scenarios.timeout_then_retry)).
  pose (s1 := {| st_txn := {| tx_troves := [Scenarios.TROVE]; tx_chainId := 1%Z;
                               tx_gas := 2000000%Z;
                               tx_gasPrice := Scenarios.GWEI 30; tx_nonce := 7%Z |};
                 rawTransaction := 99%Z |}).
  pose (s2 := {| st_txn := {| tx_troves := [Scenarios.TROVE]; tx_chainId := 1%Z;
                               tx_gas := 2000000%Z;
                               tx_gasPrice := Scenarios.GWEI 31; tx_nonce := 7%Z |};
                 rawTransaction := 99%Z |}).
  exists (firstn 10 t), s1, 1001%Z, [EvLog INFO (MsgSent 1001%Z)],
    (firstn 11 (skipn 13 t)), s2, (Ok 1002%Z), (skipn 25 t).
  split; [vm_compute; reflexivity |].
  split; [reflexivity | vm_compute; reflexivity].
Qed.

(** C4, amended.  When the wait for a confirmation raises (a timeout
    included), the handler of the loop logs the exception at error level and
    sleeps 5 seconds; the pass ends normally and the loop goes on with the
    next poll exactly as it would after any other pass. *)
Theorem failed_wait_is_logged_and_polling_resumes
    (w : world) (ws : list world) (t1 t2 : list event)
    (d : trove_details) (h : tx_hash) (e : exn) :
  Bot.read_lowest_trove w = (t1, Ok (Some d)) ->
  Bot.eligible Bot.LIQUIDATION_THRESHOLD d = true ->
  Bot.liquidate_trove (td_address d) w = (t2, Ok h) ->
  wait_for_transaction_receipt w h = Raise e ->
  is_Exception e = true ->
  Bot.iteration w
  = (t1 ++ EvLog INFO (MsgLowest d) :: EvLog INFO (MsgAttempting (td_address d)) :: t2
        ++ [EvWaitReceipt h (Raise e); EvLog ERROR (MsgError e); EvSleep 5],
     Ok tt)
  /\ Bot.while_true (w :: ws)
     = (fst (Bot.iteration w) ++ fst (Bot.while_true ws), snd (Bot.while_true ws)).
Proof.
  intros R E L W He.
  assert (I : Bot.iteration w
    = (t1 ++ EvLog INFO (MsgLowest d) :: EvLog INFO (MsgAttempting (td_address d)) :: t2
          ++ [EvWaitReceipt h (Raise e); EvLog ERROR (MsgError e); EvSleep 5],
       Ok tt)).
  { pose proof (loop_body_read_ok _ _ _ R) as B.
    assert (A : Bot.act_on (Some d) w
      = (EvLog INFO (MsgLowest d) :: EvLog INFO (MsgAttempting (td_address d)) :: t2
            ++ [EvWaitReceipt h (Raise e)], Raise e)).
    { unfold Bot.act_on, Eff.bind, Eff.call, Bot.logging_info, Bot.time_sleep, Eff.emit.
      rewrite E, L, W. reflexivity. }
    rewrite A in B. cbn [fst snd] in B.
    rewrite (iteration_of_body _ _ _ B), He. f_equal.
    rewrite <- !app_assoc. cbn. rewrite <- !app_assoc. reflexivity. }
  split; [exact I |].
  rewrite I at 1. apply (while_true_continues w ws _ tt). exact I.
Qed.

End LoopInvariant.

Lemma failed_wait_is_logged_witness :
  let w := Scenarios.scenario_B_timeout in
  let d := {| td_address := Scenarios.TROVE;
              td_collateral := (Z2F (Scenarios.ETH 1500) / Bot.WAD)%float;
              td_debt := (Z2F (Scenarios.ETH 3000000) / Bot.WAD)%float;
              td_collateral_ratio :=
                (Z2F (Scenarios.ETH 1500) / Bot.WAD * Z2F 1900
                 / (Z2F (Scenarios.ETH 3000000) / Bot.WAD))%float |} in
  Bot.iteration w
  = (fst (Bot.read_lowest_trove w)
       ++ EvLog INFO (MsgLowest d) :: EvLog INFO (MsgAttempting Scenarios.TROVE)
       :: fst (Bot.liquidate_trove Scenarios.TROVE w)
       ++ [EvWaitReceipt 1001%Z (Raise TimeExhausted);
           EvLog ERROR (MsgError TimeExhausted); EvSleep 5],
     Ok tt)
  /\ Bot.while_true [w; Scenarios.scenario_B]
     = (fst (Bot.iteration w) ++ fst (Bot.while_true [Scenarios.scenario_B]),
        snd (Bot.while_true [Scenarios.scenario_B])).
Proof.
  intros w d.
  apply (failed_wait_is_logged_and_polling_resumes w [Scenarios.scenario_B]
           (fst (Bot.read_lowest_trove w)) (fst (Bot.liquidate_trove Scenarios.TROVE w))
           d 1001%Z TimeExhausted);
    vm_compute; reflexivity.
Defined.

Section FailedCalls.
Import Eff.
Import Trace.

Lemma stops_bind {A B} (m : M A) (k : A -> M B) :
  stops_at_failure m -> (forall a, stops_at_failure (k a)) ->
  stops_at_failure (bind m k).
Proof.
  intros Hm Hk w ev e F. unfold bind.
  specialize (Hm w ev e F).
  destruct (m w) as [t1 [a | e1]] eqn:M; cbn [fst] in *.
  - specialize (Hk a w ev e F).
    destruct (k a w) as [t2 r] eqn:K; cbn [fst] in *.
    rewrite in_app_iff. intros [H | H].
    + destruct (Hm H) as (t & E). discriminate E.
    + destruct (Hk H) as (t & E). injection E as -> ->.
      exists (t1 ++ t). now rewrite app_assoc.
  - intros H. destruct (Hm H) as (t & E). injection E as -> ->. now exists t.
Qed.

Lemma stops_call {A} (ask : world -> result A) (evc : result A -> event) :
  (forall r, failed_call (evc r) = raised r) ->
  stops_at_failure (call ask evc).
Proof.
  intros C w ev e F. unfold call. cbn [fst In].
  intros [<- | []]. rewrite C in F.
  destruct (ask w) as [a | e']; [discriminate F |].
  injection F as ->. now exists [].
Qed.

Lemma stops_emit (ev0 : event) :
  failed_call ev0 = None -> stops_at_failure (emit ev0).
Proof.
  intros N w ev e F. unfold emit. cbn [fst In].
  intros [<- | []]. congruence.
Qed.

Lemma stops_lift {A} (r : result A) : stops_at_failure (lift r).
Proof. intros w ev e _ []. Qed.

Lemma stops_ret {A} (a : A) : stops_at_failure (ret a).
Proof. intros w ev e _ []. Qed.

Ltac stops_steps :=
  repeat first
    [ apply stops_ret
    | apply stops_lift
    | apply stops_emit; reflexivity
    | apply stops_call; intros ?; reflexivity
    | apply stops_bind; [| intros ?]
    | match goal with
      | |- context [if ?c then _ else _] => destruct c
      | |- context [match ?o with Some _ => _ | None => _ end] => destruct o
      end ].

Lemma get_trove_details_stops a : stops_at_failure (Bot.get_trove_details a).
Proof.
  unfold Bot.get_trove_details, Bot.scaled, Bot.get_eth_price. stops_steps.
Qed.

Lemma liquidate_trove_stops a : stops_at_failure (Bot.liquidate_trove a).
Proof. unfold Bot.liquidate_trove, Bot.logging_info. stops_steps. Qed.

Lemma loop_body_stops : stops_at_failure Bot.loop_body.
Proof.
  unfold Bot.loop_body, Bot.read_lowest_trove.
  apply stops_bind; [apply stops_bind; [stops_steps | apply get_trove_details_stops] |].
  intros o. unfold Bot.act_on, Bot.logging_info, Bot.time_sleep.
  apply stops_bind; [| intros ?; stops_steps].
  destruct o as [d |]; [| stops_steps].
  apply stops_bind; [stops_steps | intros ?].
  destruct (Bot.eligible _ _); [| stops_steps].
  apply stops_bind; [stops_steps | intros ?].
  apply stops_bind; [apply liquidate_trove_stops | intros ?].
  stops_steps.
Qed.

Lemma failed_read_is_failed_call ev e :
  failed_read ev = Some e -> failed_call ev = Some e.
Proof. destruct ev; cbn; congruence. Qed.

(** C5.  Whichever read of a pass fails - the head of the sorted list, the
    trove, the price request, the transaction count or the gas price - the
    failed call is the last thing the body of the pass does; the handler
    logs the error and sleeps 5 seconds, and the loop goes on with the next
    pass.  The same holds for every [Exception] that the body raises, such
    as those of the arithmetic on a malformed answer. *)
Theorem read_errors_are_caught_logged_and_loop_continues
    (w : world) (ws : list world) :
  (forall ev e,
     failed_read ev = Some e ->
     In ev (fst (Bot.iteration w)) ->
     is_Exception e = true ->
     exists t,
       Bot.iteration w = (t ++ [ev; EvLog ERROR (MsgError e); EvSleep 5], Ok tt)
       /\ Bot.while_true (w :: ws)
          = (t ++ [ev; EvLog ERROR (MsgError e); EvSleep 5] ++ fst (Bot.while_true ws),
             snd (Bot.while_true ws)))
  /\ (forall t e,
        Bot.loop_body w = (t, Raise e) ->
        is_Exception e = true ->
        Bot.iteration w = (t ++ [EvLog ERROR (MsgError e); EvSleep 5], Ok tt)
        /\ Bot.while_true (w :: ws)
           = (t ++ [EvLog ERROR (MsgError e); EvSleep 5] ++ fst (Bot.while_true ws),
              snd (Bot.while_true ws))).
Proof.
  assert (Caught : forall t e,
    Bot.loop_body w = (t, Raise e) -> is_Exception e = true ->
    Bot.iteration w = (t ++ [EvLog ERROR (MsgError e); EvSleep 5], Ok tt)
    /\ Bot.while_true (w :: ws)
       = (t ++ [EvLog ERROR (MsgError e); EvSleep 5] ++ fst (Bot.while_true ws),
          snd (Bot.while_true ws))).
  { intros t e L He.
    assert (I : Bot.iteration w = (t ++ [EvLog ERROR (MsgError e); EvSleep 5], Ok tt))
      by now rewrite (iteration_of_body _ _ _ L), He.
    split; [exact I |].
    rewrite (while_true_continues w ws _ tt I). now rewrite <- app_assoc. }
  split; [| exact Caught].
  intros ev e F Hin He.
  apply failed_read_is_failed_call in F.
  assert (Hb : In ev (fst (Bot.loop_body w))).
  { destruct (Bot.loop_body w) as [t r] eqn:L.
    rewrite (iteration_of_body _ _ _ L) in Hin. cbn [fst].
    destruct r as [u | e']; [exact Hin |].
    destruct (is_Exception e'); cbn [fst] in Hin; [| exact Hin].
    rewrite in_app_iff in Hin. destruct Hin as [H | [<- | [<- | []]]];
      [exact H | discriminate F | discriminate F]. }
  destruct (loop_body_stops w ev e F Hb) as (t & L).
  exists t. destruct (Caught _ _ L He) as [I W].
  rewrite <- !app_assoc in I, W. cbn [app] in I, W. auto.
Qed.

End FailedCalls.

(** Only what is not an [Exception] leaves the loop. *)
Lemma keyboard_interrupt_leaves_main :
  Bot.main [Scenarios.interrupted; Scenarios.scenario_A]
  = ([EvLog INFO MsgStarting; EvFirstTrove (Raise KeyboardInterrupt)],
     Bot.Crashed KeyboardInterrupt).
Proof. reflexivity. Qed.

Lemma read_errors_are_caught_witness :
  exists t,
    Bot.iteration MoreScenarios.gas_price_unreachable
    = (t ++ [EvGasPrice (Raise ConnectionError);
             EvLog ERROR (MsgError ConnectionError); EvSleep 5], Ok tt)
    /\ Bot.while_true [MoreScenarios.gas_price_unreachable; Scenarios.scenario_A]
       = (t ++ [EvGasPrice (Raise ConnectionError);
                EvLog ERROR (MsgError ConnectionError); EvSleep 5]
            ++ fst (Bot.while_true [Scenarios.scenario_A]),
          snd (Bot.while_true [Scenarios.scenario_A])).
Proof.
  destruct (read_errors_are_caught_logged_and_loop_continues
              MoreScenarios.gas_price_unreachable [Scenarios.scenario_A])
    as [Reads _].
  apply (Reads (EvGasPrice (Raise ConnectionError)) ConnectionError);
    [reflexivity | | reflexivity].
  vm_compute. repeat (first [left; reflexivity | right]).
Defined.

(** C8.  A call of [liquidate_trove] never reaches [send_raw_transaction]
    more than once, and a call that returns has reached it exactly once, with
    a transaction bound to the one trove it was given; there is no retry
    inside the function. *)
Theorem liquidate_trove_sends_exactly_once (w : world) (a : address) :
  InFlight.count_sends (fst (Bot.liquidate_trove a w)) <= 1
  /\ forall t h,
       Bot.liquidate_trove a w = (t, Ok h) ->
       InFlight.count_sends t = 1
       /\ exists pre s,
            t = pre ++ [EvSendRawTransaction s (Ok h); EvLog INFO (MsgSent h)]
            /\ InFlight.count_sends pre = 0
            /\ tx_troves (st_txn s) = [a].
Proof.
  destruct (liquidate_trove_cases w a)
    as [(t & e & L & _ & C) | (pre & s & h & L & _ & C & T)]; rewrite L; cbn [fst].
  - split; [exact C | intros t' h' H; discriminate H].
  - assert (S1 : InFlight.count_sends
                   (pre ++ [EvSendRawTransaction s (Ok h); EvLog INFO (MsgSent h)]) = 1).
    { rewrite count_sends_app, C. reflexivity. }
    split; [lia |].
    intros t' h' H. injection H as <- <-.
    split; [exact S1 |]. exists pre, s. auto.
Qed.

Lemma liquidate_trove_sends_exactly_once_witness :
  InFlight.count_sends (fst (Bot.liquidate_trove Scenarios.TROVE Scenarios.scenario_B)) = 1.
Proof.
  destruct (liquidate_trove_sends_exactly_once Scenarios.scenario_B Scenarios.TROVE)
    as [_ H].
  destruct (H (fst (Bot.liquidate_trove Scenarios.TROVE Scenarios.scenario_B)) 1002%Z)
    as [H1 _]; [vm_compute; reflexivity | exact H1].
Defined.

(** ** Purity and numeric domain of the health evaluation *)

(** C7, as the specification states it, fails: the evaluation reads the
    price itself, so the same trove with the same collateral and debt is
    judged eligible in one world and not eligible in another. *)
Lemma same_trove_different_verdict_after_price_read :
  troves_call Scenarios.scenario_B Scenarios.TROVE
  = troves_call Scenarios.scenario_B_recovered Scenarios.TROVE
  /\ Bot.reports_eligible
       (snd (Bot.get_trove_details Scenarios.TROVE Scenarios.scenario_B)) = true
  /\ Bot.reports_eligible
       (snd (Bot.get_trove_details Scenarios.TROVE Scenarios.scenario_B_recovered)) = false
  /\ In (EvHttpGetPrice (Ok (PyInt 1900)))
        (fst (Bot.get_trove_details Scenarios.TROVE Scenarios.scenario_B)).
Proof.
  split; [reflexivity |].
  split; [vm_compute; reflexivity |].
  split; [vm_compute; reflexivity |].
  vm_compute. right. left. reflexivity.
Qed.

(** C7, amended.  [get_trove_details] reads the trove and, for a positive
    debt, the price; its trace and its result are a function of the address
    and of these two answers alone: two evaluations that get the same answers
    agree. *)
Theorem get_trove_details_determined_by_its_reads (w1 w2 : world) (a : address) :
  troves_call w1 a = troves_call w2 a ->
  price_get w1 = price_get w2 ->
  Bot.get_trove_details a w1 = Bot.get_trove_details a w2.
Proof.
  intros Ht Hp.
  unfold Bot.get_trove_details, Bot.get_eth_price, Bot.scaled,
    Eff.bind, Eff.call, Eff.lift, Eff.ret.
  rewrite Ht.
  destruct (troves_call w2 a) as [trove | e]; [| reflexivity].
  destruct (index trove 1) as [c | e]; [| reflexivity].
  destruct (Bot.from_wad c) as [coll | e]; [| reflexivity].
  destruct (index trove 0) as [d0 | e]; [| reflexivity].
  destruct (Bot.from_wad d0) as [debt | e]; [| reflexivity].
  cbn [app]. destruct (PrimFloat.ltb 0 debt); [| reflexivity].
  rewrite Hp. reflexivity.
Qed.

Lemma get_trove_details_determined_witness :
  Bot.get_trove_details Scenarios.TROVE Scenarios.scenario_B
  = Bot.get_trove_details Scenarios.TROVE Scenarios.scenario_B_timeout.
Proof.
  apply (get_trove_details_determined_by_its_reads
           Scenarios.scenario_B Scenarios.scenario_B_timeout Scenarios.TROVE);
    reflexivity.
Defined.

(** C6, as the specification states it, fails: the script computes in
    binary64 floats.  For a trove one wei of collateral short of the ratio
    1.1 at price 2000, the 18-decimal fixed-point evaluation with truncation
    and the exact rational comparison both find it eligible; the script does
    not, because its ratio rounds to the float nearest to 1.1. *)
Lemma float_verdict_differs_from_fixed_point :
  Bot.reports_eligible
    (snd (Bot.get_trove_details Scenarios.TROVE Scenarios.one_wei_short)) = false
  /\ SpecFixedPoint.eligible (Scenarios.ETH 1650 - 1) (Scenarios.ETH 3000000)
       (2000 * SpecFixedPoint.SCALE) (11 * 10 ^ 17) = true
  /\ SpecFixedPoint.eligible_exact_11_10
       (Scenarios.ETH 1650 - 1) (Scenarios.ETH 3000000) 2000 = true.
Proof. repeat split; vm_compute; reflexivity. Qed.

(** C6, amended.  All arithmetic that determines the health ratio and the
    liquidation decision is performed in binary64 floating point with
    rounding to nearest, ties to even: the raw amounts are rounded to floats
    and divided by 1e18, the ratio is the rounded quotient of the rounded
    product, and the decision is the float comparison with the threshold. *)
Theorem health_ratio_is_binary64_nearest_even
    (w : world) (a : address) (debt_raw coll_raw : Z) (rest : list Z)
    (price : value) (coll debt p : float) :
  troves_call w a = Ok (debt_raw :: coll_raw :: rest) ->
  Bot.from_wad coll_raw = Ok coll ->
  Bot.from_wad debt_raw = Ok debt ->
  (0 <? debt)%float = true ->
  price_get w = Ok price ->
  float_operand price = Ok p ->
  exists d,
    snd (Bot.get_trove_details a w) = Ok (Some d)
    /\ Prim2SF (td_collateral d)
       = SF64div (Prim2SF (SF2Prim (binary_normalize prec emax coll_raw 0 false)))
                 (Prim2SF Bot.WAD)
    /\ Prim2SF (td_debt d)
       = SF64div (Prim2SF (SF2Prim (binary_normalize prec emax debt_raw 0 false)))
                 (Prim2SF Bot.WAD)
    /\ Prim2SF (td_collateral_ratio d)
       = SF64div (SF64mul (Prim2SF (td_collateral d)) (Prim2SF p)) (Prim2SF (td_debt d))
    /\ forall threshold,
         Bot.eligible threshold d
         = SFltb (Prim2SF (td_collateral_ratio d)) (Prim2SF threshold).
Proof.
  intros Ht Hc Hd Hpos Hp Hop.
  eexists. split.
  { rewrite (get_trove_details_positive_debt _ _ _ _ _ _ _ _ _ Ht Hc Hd Hpos Hp Hop).
    reflexivity. }
  cbn [td_collateral td_debt td_collateral_ratio].
  rewrite (from_wad_ok _ _ Hc), (from_wad_ok _ _ Hd).
  repeat split.
  - apply div_spec.
  - apply div_spec.
  - now rewrite div_spec, mul_spec.
  - intros th. unfold Bot.eligible. cbn [td_collateral_ratio]. apply ltb_spec.
Qed.

Lemma health_ratio_is_binary64_witness :
  exists d,
    snd (Bot.get_trove_details Scenarios.TROVE Scenarios.one_wei_short) = Ok (Some d)
    /\ Prim2SF (td_collateral_ratio d)
       = SF64div (SF64mul (Prim2SF (td_collateral d)) (Prim2SF (Z2F 2000)))
           (Prim2SF (td_debt d)).
Proof.
  assert (Hc : Bot.from_wad (Scenarios.ETH 1650 - 1)
               = Ok (Z2F (Scenarios.ETH 1650 - 1) / Bot.WAD)%float)
    by (vm_compute; reflexivity).
  assert (Hd : Bot.from_wad (Scenarios.ETH 3000000)
               = Ok (Z2F (Scenarios.ETH 3000000) / Bot.WAD)%float)
    by (vm_compute; reflexivity).
  assert (Hpos : (0 <? Z2F (Scenarios.ETH 3000000) / Bot.WAD)%float = true)
    by (vm_compute; reflexivity).
  assert (Hop : float_operand (PyInt 2000) = Ok (Z2F 2000))
    by (vm_compute; reflexivity).
  destruct (health_ratio_is_binary64_nearest_even
              Scenarios.one_wei_short Scenarios.TROVE
              (Scenarios.ETH 3000000) (Scenarios.ETH 1650 - 1)
              [Scenarios.ETH 1650 - 1; 1; 0]%Z (PyInt 2000) _ _ _
              eq_refl Hc Hd Hpos eq_refl Hop)
    as (d & H1 & _ & _ & H4 & _).
  exists d. split; [exact H1 | exact H4].
Defined.

(** ** Uniswap option risks *)

Section UniswapFacts.
Import Uniswap.
Local Open Scope float_scope.

Lemma SFdiv_self (s : bool) (m : positive) (e : Z) :
  SF64div (S754_finite s m e) (S754_finite s m e) = Prim2SF 1.
Proof.
  unfold SF64div, SFdiv, SFdiv_core_binary.
  rewrite !Z.sub_diag.
  change (Z.min (fexp prec emax 0) 0) with (-53)%Z.
  change (0 - -53)%Z with 53%Z.
  cbv iota beta.
  rewrite Z.shiftl_mul_pow2 by lia.
  rewrite (Z.mul_comm (Z.pos m)).
  pose proof (Z.div_mul (2 ^ 53) (Z.pos m) ltac:(lia)) as Hq.
  pose proof (Z.mod_mul (2 ^ 53) (Z.pos m) ltac:(lia)) as Hr.
  unfold Z.div, Z.modulo in Hq, Hr.
  destruct (Z.div_eucl (2 ^ 53 * Z.pos m) (Z.pos m)) as [q r].
  cbn [fst snd] in Hq, Hr. subst q r.
  assert (L : new_location (Z.pos m) 0 = loc_Exact).
  { unfold new_location. destruct (Z.even (Z.pos m)); reflexivity. }
  rewrite L. destruct s; vm_compute; reflexivity.
Qed.

(** A finite float other than zero divided by itself is exactly 1. *)
Lemma div_self_one (k : float) :
  (k =? 0) = false -> (abs k <? infinity) = true -> k / k = 1.
Proof.
  rewrite eqb_spec, ltb_spec, abs_spec. intros Hnz Hfin.
  apply Prim2SF_inj. rewrite div_spec.
  change (Prim2SF 0) with (S754_zero false) in Hnz.
  change (Prim2SF infinity) with (S754_infinity false) in Hfin.
  destruct (Prim2SF k) as [s | s | | s m e];
    cbn in Hnz, Hfin; try discriminate.
  apply SFdiv_self.
Qed.

(** An infinity or a NaN divided by itself is a NaN, and so is its root. *)
Lemma div_self_nan (k : float) :
  (abs k <? infinity) = false ->
  (k =? 0) = false /\ is_nan (PrimFloat.sqrt (k / k)) = true.
Proof.
  unfold is_nan.
  rewrite !eqb_spec, ltb_spec, abs_spec, sqrt_spec, div_spec.
  change (Prim2SF 0) with (S754_zero false).
  change (Prim2SF infinity) with (S754_infinity false).
  destruct (Prim2SF k) as [s | s | | s m e]; try discriminate.
  - intros _. destruct s; split; reflexivity.
  - intros _. split; reflexivity.
Qed.

(** C9, as the specification states it, fails: the product of the amounts is
    a binary64 product.  For two amounts of [2 ** 600] it is [+inf], which is
    greater than 0, and the strike is [inf / inf], a NaN; for two amounts of
    [2 ** -600], both positive, it is 0 and the division raises. *)
Lemma implied_strike_of_large_pool_is_nan :
  (0 <? token_a large_pool * token_b large_pool) = true
  /\ (exists strike,
        implied_strike large_pool = Ok strike /\ is_nan strike = true)
  /\ (0 <? token_a small_pool) = true
  /\ (0 <? token_b small_pool) = true
  /\ implied_strike small_pool = Raise ZeroDivisionError.
Proof.
  split; [vm_compute; reflexivity |].
  split; [| repeat split; vm_compute; reflexivity].
  exists (PrimFloat.sqrt ((0x1p+600 * 0x1p+600) / (0x1p+600 * 0x1p+600))).
  split; vm_compute; reflexivity.
Qed.

(** C9, amended.  The strike is decided by the binary64 product
    [token_a * token_b] alone.  When the product is 0, an underflow
    included, the division raises [ZeroDivisionError] and so does
    [calculate_uniswap_option_risks].  When it is finite and not 0, of
    either sign, the strike is exactly 1.0 and the Greeks are those of lines
    19 to 47 at the strike 1.0: nothing of the composition of the pool
    enters them through the strike.  When it is an infinity or a NaN the
    strike is a NaN. *)
Theorem implied_strike_is_one_zero_division_or_nan
    (np_log np_exp norm_cdf norm_pdf : float -> float)
    (float_pow : float -> float -> result float)
    (position : UniswapPosition) (days : Z) (risk_free_rate volatility : float) :
  let k := token_a position * token_b position in
  let risks :=
    calculate_uniswap_option_risks np_log np_exp norm_cdf norm_pdf float_pow
      position days risk_free_rate volatility in
  ((k =? 0) = true ->
   implied_strike position = Raise ZeroDivisionError
   /\ risks = Raise ZeroDivisionError)
  /\ ((k =? 0) = false -> (abs k <? infinity) = true ->
      implied_strike position = Ok 1
      /\ risks = risks_at_strike np_log np_exp norm_cdf norm_pdf float_pow
                   1 position days risk_free_rate volatility)
  /\ ((abs k <? infinity) = false ->
      exists strike,
        implied_strike position = Ok strike /\ is_nan strike = true
        /\ risks = risks_at_strike np_log np_exp norm_cdf norm_pdf float_pow
                     strike position days risk_free_rate volatility).
Proof.
  intros k risks. subst risks.
  unfold calculate_uniswap_option_risks, implied_strike, truediv. fold k.
  split; [| split].
  - intros ->. split; reflexivity.
  - intros Hnz Hfin. rewrite Hnz, (div_self_one k Hnz Hfin).
    replace (PrimFloat.sqrt 1) with 1 by (vm_compute; reflexivity).
    split; reflexivity.
  - intros Hinf. destruct (div_self_nan k Hinf) as [Hnz Hnan].
    rewrite Hnz. exists (PrimFloat.sqrt (k / k)). auto.
Qed.

Lemma implied_strike_is_one_witness :
  implied_strike main_position = Ok 1.
Proof.
  destruct (implied_strike_is_one_zero_division_or_nan
              (fun x => x) (fun x => x) (fun x => x) (fun x => x)
              (fun x _ => Ok (x * x))
              main_position 30 0x1.47ae147ae147bp-7 0.5)
    as (_ & One & _).
  apply One; vm_compute; reflexivity.
Defined.



End UniswapFacts.

(** * Further properties of the scripts *)

(** ** What a pass of the loop can and cannot do *)

Section PassFacts.
Import InFlight.
Import Trace.

Lemma iteration_raises_only_base_exceptions w e :
  snd (Bot.iteration w) = Raise e -> is_Exception e = false.
Proof.
  destruct (Bot.loop_body w) as [t r] eqn:L.
  rewrite (iteration_of_body _ _ _ L).
  destruct r as [u | e']; [discriminate |].
  destruct (is_Exception e') eqn:E; cbn [snd]; [discriminate |].
  intros H. injection H as <-. exact E.
Qed.

(** X1.  Whatever goes wrong in a pass - a read, the arithmetic, building,
    signing or sending the transaction, the wait for its receipt - [main]
    is left only by an exception that is not an [Exception], such as
    [KeyboardInterrupt]. *)
Theorem main_is_left_only_by_base_exceptions (ws : list world) (e : exn) :
  snd (Bot.main ws) = Bot.Crashed e -> is_Exception e = false.
Proof.
  unfold Bot.main.
  assert (H : snd (Bot.while_true ws) = Bot.Crashed e -> is_Exception e = false).
  { induction ws as [| w ws IH]; [discriminate |].
    cbn [Bot.while_true].
    pose proof (iteration_raises_only_base_exceptions w) as I.
    destruct (Bot.iteration w) as [t [u | e']]; cbn [snd] in *.
    - destruct (Bot.while_true ws) as [t' s]. exact IH.
    - intros H. injection H as <-. now apply I. }
  destruct (Bot.while_true ws) as [t s]. exact H.
Qed.

Lemma main_is_left_only_by_base_exceptions_witness :
  snd (Bot.main [Scenarios.interrupted; Scenarios.scenario_A])
  = Bot.Crashed KeyboardInterrupt
  /\ is_Exception KeyboardInterrupt = false.
Proof.
  split; [reflexivity |].
  apply (main_is_left_only_by_base_exceptions
           [Scenarios.interrupted; Scenarios.scenario_A] KeyboardInterrupt).
  reflexivity.
Defined.

Lemma bind_emit_ok {A} (m : Eff.M A) ev w t u :
  Eff.bind m (fun _ => Eff.emit ev) w = (t, Ok u) ->
  exists t', t = t' ++ [ev].
Proof.
  unfold Eff.bind, Eff.emit. destruct (m w) as [t1 [a | e]]; [| discriminate].
  intros H. injection H as <- _. now exists t1.
Qed.

(** X2.  A pass that comes back to the loop head has just slept: 15 seconds
    when its body ran to the end, 5 seconds when the handler caught an
    exception, and then the error log entry comes right before the sleep. *)
Theorem pass_ends_with_its_sleep (w : world) (t : list event) :
  Bot.iteration w = (t, Ok tt) ->
  (Bot.loop_body w = (t, Ok tt) /\ exists t', t = t' ++ [EvSleep 15])
  \/ (exists t' e,
        Bot.loop_body w = (t', Raise e)
        /\ is_Exception e = true
        /\ t = t' ++ [EvLog ERROR (MsgError e); EvSleep 5]).
Proof.
  destruct (Bot.loop_body w) as [tb r] eqn:L.
  rewrite (iteration_of_body _ _ _ L).
  destruct r as [[] | e].
  - intros H. injection H as <-. left. split; [reflexivity |].
    unfold Bot.loop_body in L.
    destruct (Bot.read_lowest_trove w) as [t1 [o | e]] eqn:R.
    + rewrite (bind_ok _ _ _ _ _ R) in L.
      destruct (Bot.act_on o w) as [t2 r2] eqn:A. cbn [fst snd] in L.
      injection L as <- ->.
      unfold Bot.act_on, Bot.time_sleep in A.
      apply bind_emit_ok in A as [t' ->].
      exists (t1 ++ t'). now rewrite app_assoc.
    + rewrite (bind_raise _ _ _ _ _ R) in L. discriminate.
  - destruct (is_Exception e) eqn:E; [| discriminate].
    intros H. injection H as <-. right. exists tb, e. auto.
Qed.

Lemma pass_ends_with_its_sleep_witness :
  let t := fst (Bot.iteration Scenarios.scenario_D) in
  (Bot.loop_body Scenarios.scenario_D = (t, Ok tt) /\ exists t', t = t' ++ [EvSleep 15])
  \/ (exists t' e,
        Bot.loop_body Scenarios.scenario_D = (t', Raise e)
        /\ is_Exception e = true
        /\ t = t' ++ [EvLog ERROR (MsgError e); EvSleep 5]).
Proof.
  intros t.
  apply (pass_ends_with_its_sleep Scenarios.scenario_D t).
  vm_compute. reflexivity.
Defined.

Lemma bind_forallb {A B} (P : event -> bool) (m : Eff.M A) (k : A -> Eff.M B) w :
  forallb P (fst (m w)) = true ->
  (forall a, forallb P (fst (k a w)) = true) ->
  forallb P (fst (Eff.bind m k w)) = true.
Proof.
  intros Hm Hk. unfold Eff.bind.
  destruct (m w) as [t1 [a | e]]; cbn [fst] in *; [| exact Hm].
  specialize (Hk a). destruct (k a w) as [t2 r]; cbn [fst] in *.
  rewrite forallb_app, Hm, Hk. reflexivity.
Qed.

Ltac forallb_steps :=
  repeat first
    [ reflexivity
    | apply bind_forallb; [| intros ?]
    | match goal with
      | |- context [if ?c then _ else _] => destruct c
      end ].

Lemma get_trove_details_sends_nothing w a :
  forallb not_send (fst (Bot.get_trove_details a w)) = true.
Proof. unfold Bot.get_trove_details, Bot.scaled. forallb_steps. Qed.

Lemma read_lowest_trove_sends_nothing w :
  forallb not_send (fst (Bot.read_lowest_trove w)) = true.
Proof.
  unfold Bot.read_lowest_trove.
  apply bind_forallb; [reflexivity | intros a; apply get_trove_details_sends_nothing].
Qed.

Lemma not_send_not_in t s r :
  forallb not_send t = true -> ~ In (EvSendRawTransaction s r) t.
Proof.
  intros H Hin. rewrite forallb_forall in H. specialize (H _ Hin). discriminate H.
Qed.

Lemma not_send_count t : forallb not_send t = true -> count_sends t = 0.
Proof.
  unfold count_sends, not_send.
  induction t as [| ev t IH]; [reflexivity |].
  cbn. intros H. apply andb_prop in H as [H1 H2].
  destruct (is_send ev); [discriminate H1 | now apply IH].
Qed.

Lemma get_trove_details_address w a d :
  snd (Bot.get_trove_details a w) = Ok (Some d) -> td_address d = a.
Proof.
  unfold Bot.get_trove_details, Bot.scaled, Bot.get_eth_price,
    Eff.bind, Eff.call, Eff.lift, Eff.ret.
  destruct (troves_call w a) as [trove | e]; [| discriminate].
  destruct (index trove 1) as [c | e]; [| discriminate].
  destruct (Bot.from_wad c) as [coll | e]; [| discriminate].
  destruct (index trove 0) as [d0 | e]; [| discriminate].
  destruct (Bot.from_wad d0) as [debt | e]; [| discriminate].
  cbn [app]. destruct (PrimFloat.ltb 0 debt); [| discriminate].
  destruct (price_get w) as [v | e]; [| discriminate].
  destruct (float_operand v) as [p | e]; [| discriminate].
  destruct (truediv _ _) as [q | e]; [| discriminate].
  cbn. intros H. injection H as <-. reflexivity.
Qed.

Lemma liquidate_trove_sends w a s r :
  In (EvSendRawTransaction s r) (fst (Bot.liquidate_trove a w)) ->
  exists gp n,
    gas_price w = Ok gp /\ transaction_count w = Ok n
    /\ st_txn s = {| tx_troves := [a]; tx_chainId := 1; tx_gas := 2000000;
                     tx_gasPrice := gp; tx_nonce := n |}
    /\ build_transaction w (st_txn s) = Ok tt
    /\ sign_transaction w (st_txn s) = Ok (rawTransaction s)
    /\ r = send_raw_transaction w s.
Proof.
  unfold Bot.liquidate_trove, Eff.bind, Eff.call, Eff.ret, Bot.logging_info, Eff.emit.
  destruct (transaction_count w) as [n | e];
    [| cbn; intros [H | []]; discriminate H].
  destruct (gas_price w) as [gp | e];
    [| cbn; intros [H | [H | []]]; discriminate H].
  destruct (build_transaction w _) as [[] | e] eqn:B;
    [| cbn; intros [H | [H | [H | []]]]; discriminate H].
  destruct (sign_transaction w _) as [sig | e] eqn:S;
    [| cbn; intros [H | [H | [H | [H | []]]]]; discriminate H].
  destruct (send_raw_transaction w _) as [h | e] eqn:Q; cbn;
    intros H; repeat (destruct H as [H | H]; try discriminate H); try contradiction;
    injection H as <- <-; exists gp, n; cbn; rewrite ?Q; auto 10.
Qed.

Lemma act_on_sends w o s r :
  In (EvSendRawTransaction s r) (fst (Bot.act_on o w)) ->
  exists d, o = Some d
    /\ Bot.eligible Bot.LIQUIDATION_THRESHOLD d = true
    /\ In (EvSendRawTransaction s r) (fst (Bot.liquidate_trove (td_address d) w)).
Proof.
  destruct o as [d |]; [| cbn; intros [H | [H | []]]; discriminate H].
  destruct (Bot.eligible Bot.LIQUIDATION_THRESHOLD d) eqn:E.
  - intros H. exists d. split; [reflexivity |]. split; [exact E |].
    revert H.
    unfold Bot.act_on, Eff.bind, Eff.call, Bot.logging_info, Bot.time_sleep, Eff.emit.
    rewrite E.
    destruct (Bot.liquidate_trove (td_address d) w) as [tl [h | e]]; cbn [fst].
    + destruct (wait_for_transaction_receipt w h) as [rc | e]; cbn;
        rewrite ?in_app_iff; cbn;
        intros H; repeat (destruct H as [H | H]; try discriminate H);
        try contradiction; assumption.
    + cbn. intros H; repeat (destruct H as [H | H]; try discriminate H); assumption.
  - rewrite (act_on_above w d E). cbn.
    intros H; repeat (destruct H as [H | H]; try discriminate H); contradiction.
Qed.

(** X3.  Every transaction that a pass hands to [send_raw_transaction] is a
    liquidation of the one trove that [getFirstTroveInSortedList] returned in
    this pass, whose ratio this pass found below 1.1; it carries chain id 1,
    gas limit 2000000, the gas price and the transaction count read in this
    pass. *)
Theorem every_submission_is_for_the_eligible_first_trove
    (w : world) (s : signed_transaction) (r : result tx_hash) :
  In (EvSendRawTransaction s r) (fst (Bot.iteration w)) ->
  exists a gp n,
    first_trove_call w = Ok a
    /\ Bot.reports_eligible (snd (Bot.get_trove_details a w)) = true
    /\ gas_price w = Ok gp
    /\ transaction_count w = Ok n
    /\ st_txn s = {| tx_troves := [a]; tx_chainId := 1; tx_gas := 2000000;
                     tx_gasPrice := gp; tx_nonce := n |}
    /\ r = send_raw_transaction w s.
Proof.
  intros Hin.
  assert (Hb : In (EvSendRawTransaction s r) (fst (Bot.loop_body w))).
  { destruct (Bot.loop_body w) as [t rb] eqn:L.
    rewrite (iteration_of_body _ _ _ L) in Hin. cbn [fst].
    destruct rb as [u | e]; [exact Hin |].
    destruct (is_Exception e); cbn [fst] in Hin; [| exact Hin].
    rewrite in_app_iff in Hin. destruct Hin as [H | H]; [exact H |].
    cbn in H. repeat (destruct H as [H | H]; try discriminate H). contradiction. }
  clear Hin.
  pose proof (read_lowest_trove_sends_nothing w) as Q.
  destruct (Bot.read_lowest_trove w) as [t1 [o | e]] eqn:R; cbn [fst] in Q.
  - rewrite (loop_body_read_ok _ _ _ R) in Hb. cbn [fst] in Hb.
    rewrite in_app_iff in Hb. destruct Hb as [H | H];
      [exfalso; exact (not_send_not_in _ _ _ Q H) |].
    apply act_on_sends in H as (d & -> & E & Hl).
    destruct (first_trove_call w) as [a | e] eqn:F.
    + rewrite (read_lowest_trove_first w a F) in R. injection R as _ Rd.
      pose proof (get_trove_details_address w a d Rd) as Ha. subst a.
      destruct (liquidate_trove_sends w _ s r Hl) as (gp & n & G & N & T & _ & _ & Hr).
      exists (td_address d), gp, n. rewrite Rd. cbn [Bot.reports_eligible]. auto 10.
    + unfold Bot.read_lowest_trove, Eff.bind, Eff.call in R. rewrite F in R. discriminate R.
  - assert (L : Bot.loop_body w = (t1, Raise e))
      by (unfold Bot.loop_body; now apply bind_raise).
    rewrite L in Hb. exfalso. exact (not_send_not_in _ _ _ Q Hb).
Qed.

Lemma every_submission_is_for_the_eligible_first_trove_witness :
  let w := Scenarios.scenario_B in
  let s := {| st_txn := {| tx_troves := [Scenarios.TROVE]; tx_chainId := 1;
                           tx_gas := 2000000; tx_gasPrice := Scenarios.GWEI 31;
                           tx_nonce := 7 |};
              rawTransaction := 99 |} in
  exists a gp n,
    first_trove_call w = Ok a
    /\ Bot.reports_eligible (snd (Bot.get_trove_details a w)) = true
    /\ gas_price w = Ok gp
    /\ transaction_count w = Ok n
    /\ st_txn s = {| tx_troves := [a]; tx_chainId := 1; tx_gas := 2000000;
                     tx_gasPrice := gp; tx_nonce := n |}
    /\ Ok 1002%Z = send_raw_transaction w s.
Proof.
  intros w s.
  apply (every_submission_is_for_the_eligible_first_trove w s (Ok 1002%Z)).
  vm_compute. repeat (first [left; reflexivity | right]).
Defined.

Lemma act_on_sends_at_most_once w o : count_sends (fst (Bot.act_on o w)) <= 1.
Proof.
  destruct o as [d |]; [| cbn; lia].
  destruct (Bot.eligible Bot.LIQUIDATION_THRESHOLD d) eqn:E;
    [| rewrite (act_on_above w d E); cbn; lia].
  unfold Bot.act_on, Eff.bind, Eff.call, Bot.logging_info, Bot.time_sleep, Eff.emit.
  rewrite E.
  destruct (liquidate_trove_cases w (td_address d))
    as [(t & e & -> & _ & C) | (pre & s & h & -> & _ & C & _)].
  - cbn [fst app]. exact C.
  - destruct (wait_for_transaction_receipt w h) as [rc | e]; cbn [fst];
      repeat rewrite count_sends_app; rewrite C; cbn; lia.
Qed.

Lemma iteration_sends_at_most_once w : count_sends (fst (Bot.iteration w)) <= 1.
Proof.
  pose proof (read_lowest_trove_sends_nothing w) as Q.
  destruct (Bot.read_lowest_trove w) as [t1 [o | e]] eqn:R; cbn [fst] in Q;
    apply not_send_count in Q.
  - pose proof (loop_body_read_ok _ _ _ R) as L.
    pose proof (act_on_sends_at_most_once w o) as A.
    destruct (Bot.act_on o w) as [t2 r2]. cbn [fst snd] in *.
    rewrite (iteration_of_body _ _ _ L).
    destruct r2 as [u | e]; [| destruct (is_Exception e)]; cbn [fst];
      repeat rewrite count_sends_app; rewrite Q; cbn; lia.
  - assert (L : Bot.loop_body w = (t1, Raise e))
      by (unfold Bot.loop_body; now apply bind_raise).
    rewrite (iteration_of_body _ _ _ L).
    destruct (is_Exception e); cbn [fst];
      repeat rewrite count_sends_app; rewrite Q; cbn; lia.
Qed.

(** X4.  The loop hands at most one transaction to [send_raw_transaction]
    per pass: after any number of passes the trace of [main] holds no more
    submissions than passes. *)
Theorem at_most_one_submission_per_pass (ws : list world) :
  count_sends (fst (Bot.main ws)) <= List.length ws.
Proof.
  unfold Bot.main.
  assert (H : count_sends (fst (Bot.while_true ws)) <= List.length ws).
  { induction ws as [| w ws IH]; [cbn; lia |].
    cbn [Bot.while_true List.length].
    pose proof (iteration_sends_at_most_once w) as I.
    destruct (Bot.iteration w) as [t [u | e]]; cbn [fst] in *; [| lia].
    destruct (Bot.while_true ws) as [t' s]. cbn [fst] in *.
    rewrite count_sends_app. lia. }
  destruct (Bot.while_true ws) as [t s]. cbn [fst] in *. exact H.
Qed.

Lemma get_trove_details_before_wait w a :
  forallb before_wait (fst (Bot.get_trove_details a w)) = true.
Proof. unfold Bot.get_trove_details, Bot.scaled. forallb_steps. Qed.

Lemma read_lowest_trove_before_wait w :
  forallb before_wait (fst (Bot.read_lowest_trove w)) = true.
Proof.
  unfold Bot.read_lowest_trove.
  apply bind_forallb; [reflexivity | intros a; apply get_trove_details_before_wait].
Qed.

Lemma liquidate_trove_before_wait w a :
  forallb before_wait (fst (Bot.liquidate_trove a w)) = true.
Proof. unfold Bot.liquidate_trove, Bot.logging_info. forallb_steps. Qed.

Lemma before_wait_not_in t ev :
  forallb before_wait t = true -> before_wait ev = false -> ~ In ev t.
Proof.
  intros H E Hin. rewrite forallb_forall in H. specialize (H _ Hin). congruence.
Qed.

Lemma iteration_shape (w : world) :
  forallb before_wait (fst (Bot.iteration w)) = true
  \/ exists q s h,
       forallb before_wait q = true
       /\ fst (Bot.iteration w)
          = q ++ EvSendRawTransaction s (Ok h) :: EvLog INFO (MsgSent h)
              :: EvWaitReceipt h (wait_for_transaction_receipt w h)
              :: after_wait w h.
Proof.
  pose proof (read_lowest_trove_before_wait w) as Q.
  destruct (Bot.read_lowest_trove w) as [t1 [[d |] | e]] eqn:R; cbn [fst] in Q.
  - destruct (Bot.eligible Bot.LIQUIDATION_THRESHOLD d) eqn:E.
    + pose proof (loop_body_read_ok _ _ _ R) as L.
      pose proof (liquidate_trove_before_wait w (td_address d)) as Ql.
      revert L.
      unfold Bot.act_on, Eff.bind, Eff.call, Bot.logging_info, Bot.time_sleep, Eff.emit.
      rewrite E.
      destruct (liquidate_trove_cases w (td_address d))
        as [(t & e & Lq & _ & _) | (pre & s & h & Lq & _ & _ & _)];
        rewrite Lq in *; cbn [fst snd] in *; intros L.
      * left. rewrite (iteration_of_body _ _ _ L).
        destruct (is_Exception e); cbn [fst]; rewrite ?forallb_app, Q; cbn;
          rewrite ?forallb_app, Ql; reflexivity.
      * right. rewrite forallb_app in Ql. apply andb_prop in Ql as [Qp _].
        exists (t1 ++ EvLog INFO (MsgLowest d)
                  :: EvLog INFO (MsgAttempting (td_address d)) :: pre), s, h.
        split; [rewrite forallb_app, Q; cbn; exact Qp |].
        unfold after_wait.
        destruct (wait_for_transaction_receipt w h) as [rc | e];
          cbn [fst snd app] in L; rewrite (iteration_of_body _ _ _ L);
          [| destruct (is_Exception e)]; cbn [fst];
          rewrite <- ?app_assoc; cbn [app]; rewrite <- ?app_assoc; reflexivity.
    + left. pose proof (loop_body_read_ok _ _ _ R) as L.
      rewrite (act_on_above w d E) in L. cbn [fst snd] in L.
      rewrite (iteration_of_body _ _ _ L). cbn [fst].
      rewrite forallb_app, Q. reflexivity.
  - left. pose proof (loop_body_read_ok _ _ _ R) as L.
    rewrite act_on_none in L. cbn [fst snd] in L.
    rewrite (iteration_of_body _ _ _ L). cbn [fst].
    rewrite forallb_app, Q. reflexivity.
  - left.
    assert (L : Bot.loop_body w = (t1, Raise e))
      by (unfold Bot.loop_body; now apply bind_raise).
    rewrite (iteration_of_body _ _ _ L).
    destruct (is_Exception e); cbn [fst]; rewrite ?forallb_app, Q; reflexivity.
Qed.

Lemma after_wait_members w h ev :
  In ev (after_wait w h) ->
  before_wait ev = true
  \/ (ev = EvLog INFO (MsgComplete h)
      /\ exists receipt, wait_for_transaction_receipt w h = Ok receipt).
Proof.
  unfold after_wait.
  destruct (wait_for_transaction_receipt w h) as [rc | e];
    [| destruct (is_Exception e)]; cbn;
    intros H; repeat (destruct H as [H | H]); try contradiction; subst ev; eauto.
Qed.

(** X5.  A pass waits only for a hash that [send_raw_transaction] returned in
    this same pass, and logs "Liquidation complete" for a hash only after the
    wait for that hash returned a receipt. *)
Theorem wait_follows_an_accepted_submission (w : world) (h : tx_hash) :
  (forall r, In (EvWaitReceipt h r) (fst (Bot.iteration w)) ->
     r = wait_for_transaction_receipt w h
     /\ exists s, In (EvSendRawTransaction s (Ok h)) (fst (Bot.iteration w)))
  /\ (In (EvLog INFO (MsgComplete h)) (fst (Bot.iteration w)) ->
      exists receipt, In (EvWaitReceipt h (Ok receipt)) (fst (Bot.iteration w))).
Proof.
  destruct (iteration_shape w) as [Q | (q & s & h' & Q & ->)].
  - split; [intros r Hin | intros Hin]; exfalso; revert Hin;
      apply before_wait_not_in; (exact Q || reflexivity).
  - split.
    + intros r Hin. rewrite in_app_iff in Hin. cbn [In] in Hin.
      destruct Hin as [Hin | [Hin | [Hin | [Hin | Hin]]]]; try discriminate Hin.
      * exfalso. revert Hin. apply before_wait_not_in; [exact Q | reflexivity].
      * injection Hin as -> <-. split; [reflexivity |].
        exists s. rewrite in_app_iff. right. left. reflexivity.
      * apply after_wait_members in Hin as [Hin | [Hin _]]; discriminate Hin.
    + intros Hin. rewrite in_app_iff in Hin. cbn [In] in Hin.
      destruct Hin as [Hin | [Hin | [Hin | [Hin | Hin]]]]; try discriminate Hin.
      * exfalso. revert Hin. apply before_wait_not_in; [exact Q | reflexivity].
      * apply after_wait_members in Hin as [Hin | [Hin (rc & W)]]; [discriminate Hin |].
        injection Hin as ->. exists rc. rewrite in_app_iff. right. right. right. left.
        now rewrite W.
Qed.

(** X6.  The receipt is not inspected: when the wait returns a receipt, with
    whatever status, the pass logs "Liquidation complete" for the hash and
    sleeps 15 seconds. *)
Theorem any_receipt_is_logged_as_complete
    (w : world) (t1 t2 : list event) (d : trove_details) (h : tx_hash) (receipt : Z) :
  Bot.read_lowest_trove w = (t1, Ok (Some d)) ->
  Bot.eligible Bot.LIQUIDATION_THRESHOLD d = true ->
  Bot.liquidate_trove (td_address d) w = (t2, Ok h) ->
  wait_for_transaction_receipt w h = Ok receipt ->
  Bot.iteration w
  = (t1 ++ EvLog INFO (MsgLowest d) :: EvLog INFO (MsgAttempting (td_address d)) :: t2
        ++ [EvWaitReceipt h (Ok receipt); EvLog INFO (MsgComplete h); EvSleep 15],
     Ok tt).
Proof.
  intros R E L W.
  pose proof (loop_body_read_ok _ _ _ R) as B.
  assert (A : Bot.act_on (Some d) w
    = (EvLog INFO (MsgLowest d) :: EvLog INFO (MsgAttempting (td_address d)) :: t2
          ++ [EvWaitReceipt h (Ok receipt); EvLog INFO (MsgComplete h); EvSleep 15],
       Ok tt)).
  { unfold Bot.act_on, Eff.bind, Eff.call, Bot.logging_info, Bot.time_sleep, Eff.emit.
    rewrite E, L, W. cbn. rewrite <- !app_assoc. reflexivity. }
  rewrite A in B. cbn [fst snd] in B.
  now rewrite (iteration_of_body _ _ _ B).
Qed.

(** X7.  A trove tuple with fewer than two components makes [trove[1]] raise
    [IndexError] before any price is fetched; the handler logs it and the
    pass ends with the 5-second sleep. *)
Theorem short_trove_tuple_is_an_index_error
    (w : world) (a : address) (trove : list Z) :
  first_trove_call w = Ok a ->
  troves_call w a = Ok trove ->
  (List.length trove < 2)%nat ->
  Bot.iteration w
  = ([EvFirstTrove (Ok a); EvTroves a (Ok trove);
      EvLog ERROR (MsgError IndexError); EvSleep 5], Ok tt).
Proof.
  intros Hf Ht Hl.
  assert (G : Bot.get_trove_details a w = ([EvTroves a (Ok trove)], Raise IndexError)).
  { unfold Bot.get_trove_details, Bot.scaled, Eff.bind, Eff.call, Eff.lift, index.
    rewrite Ht.
    destruct trove as [| x [| y rest]]; [reflexivity | reflexivity | cbn in Hl; lia]. }
  pose proof (read_lowest_trove_first w a Hf) as R. rewrite G in R. cbn [fst snd] in R.
  assert (L : Bot.loop_body w
              = ([EvFirstTrove (Ok a); EvTroves a (Ok trove)], Raise IndexError))
    by (unfold Bot.loop_body; now apply bind_raise).
  now rewrite (iteration_of_body _ _ _ L).
Qed.

(** X8.  A price that Python does not take as a number - [null], a string,
    an array or an object - reaches the arithmetic only for a trove with
    positive debt; there [coll * price] raises [TypeError], nothing is
    submitted, and the pass ends with the error entry and the 5-second
    sleep.  [true] and [false] are not among them: they are multiplied as
    1.0 and 0.0 and give a ratio like any other number. *)
Theorem non_numeric_price_ends_the_pass
    (w : world) (a : address) (debt_raw coll_raw : Z) (rest : list Z)
    (price : value) (coll debt : float) :
  first_trove_call w = Ok a ->
  troves_call w a = Ok (debt_raw :: coll_raw :: rest) ->
  Bot.from_wad coll_raw = Ok coll ->
  Bot.from_wad debt_raw = Ok debt ->
  (0 <? debt)%float = true ->
  price_get w = Ok price ->
  (is_number price = false ->
   Bot.iteration w
   = ([EvFirstTrove (Ok a); EvTroves a (Ok (debt_raw :: coll_raw :: rest));
       EvHttpGetPrice (Ok price); EvLog ERROR (MsgError TypeError); EvSleep 5],
      Ok tt))
  /\ (forall b, price = PyBool b ->
      snd (Bot.get_trove_details a w)
      = Ok (Some {| td_address := a; td_collateral := coll; td_debt := debt;
                    td_collateral_ratio :=
                      (coll * (if b then 1 else 0) / debt)%float |})).
Proof.
  intros Hf Ht Hc Hd Hpos Hp. split.
  - intros Hn.
    assert (Hop : float_operand price = Raise TypeError)
      by (destruct price; (discriminate Hn || reflexivity)).
    assert (G : Bot.get_trove_details a w
                = ([EvTroves a (Ok (debt_raw :: coll_raw :: rest));
                    EvHttpGetPrice (Ok price)], Raise TypeError)).
    { unfold Bot.get_trove_details, Bot.scaled, Bot.get_eth_price,
        Eff.bind, Eff.call, Eff.lift, Eff.ret, index.
      rewrite Ht. cbn [nth_error app]. rewrite Hc, Hd. cbn [app].
      rewrite Hpos, Hp, Hop. reflexivity. }
    pose proof (read_lowest_trove_first w a Hf) as R. rewrite G in R. cbn [fst snd] in R.
    assert (L : Bot.loop_body w
                = ([EvFirstTrove (Ok a); EvTroves a (Ok (debt_raw :: coll_raw :: rest));
                    EvHttpGetPrice (Ok price)], Raise TypeError))
      by (unfold Bot.loop_body; now apply bind_raise).
    now rewrite (iteration_of_body _ _ _ L).
  - intros b ->.
    now rewrite (get_trove_details_positive_debt _ _ _ _ _ _ _ _ _
                   Ht Hc Hd Hpos Hp eq_refl).
Qed.



(** X10.  On an active trove with positive debt the position report and the
    bot make the same calls in the same order and compute the same
    collateral, debt and ratio. *)
Theorem report_and_bot_agree_on_active_trove
    (w : world) (a : address) (debt_raw coll_raw stake : Z) (rest : list Z)
    (price : value) (coll debt p : float) :
  troves_call w a = Ok (debt_raw :: coll_raw :: stake :: 1%Z :: rest) ->
  Bot.from_wad coll_raw = Ok coll ->
  Bot.from_wad debt_raw = Ok debt ->
  (0 <? debt)%float = true ->
  price_get w = Ok price ->
  float_operand price = Ok p ->
  PositionInfo.get_trove_info a w
  = (fst (Bot.get_trove_details a w),
     Ok (PositionInfo.Active coll debt (coll * p / debt)%float))
  /\ snd (Bot.get_trove_details a w)
     = Ok (Some {| td_address := a; td_collateral := coll; td_debt := debt;
                   td_collateral_ratio := (coll * p / debt)%float |}).
Proof.
  intros Ht Hc Hd Hpos Hp Hop.
  rewrite (get_trove_details_positive_debt _ _ _ _ _ _ _ _ _ Ht Hc Hd Hpos Hp Hop).
  split; [| reflexivity]. cbn [fst].
  unfold PositionInfo.get_trove_info, Bot.scaled, Bot.get_eth_price,
    Eff.bind, Eff.call, Eff.lift, Eff.ret, index.
  rewrite Ht. cbn [nth_error app]. rewrite Hc, Hd.
  cbn [nth_error app Z.eqb Pos.eqb]. rewrite Hp, Hpos. cbn [app]. rewrite Hop.
  rewrite (truediv_positive _ _ Hpos). reflexivity.
Qed.

(** X11.  For a trove whose status is not 1 the report fetches no price: it
    reads the trove, divides both amounts and returns "Not active". *)
Theorem inactive_trove_reads_no_price
    (w : world) (a : address) (debt_raw coll_raw stake status : Z) (rest : list Z)
    (coll debt : float) :
  troves_call w a = Ok (debt_raw :: coll_raw :: stake :: status :: rest) ->
  status <> 1%Z ->
  Bot.from_wad coll_raw = Ok coll ->
  Bot.from_wad debt_raw = Ok debt ->
  PositionInfo.get_trove_info a w
  = ([EvTroves a (Ok (debt_raw :: coll_raw :: stake :: status :: rest))],
     Ok PositionInfo.NotActive).
Proof.
  intros Ht Hs Hc Hd.
  unfold PositionInfo.get_trove_info, Bot.scaled, Bot.get_eth_price,
    Eff.bind, Eff.call, Eff.lift, Eff.ret, index.
  rewrite Ht. cbn [nth_error app]. rewrite Hc, Hd. cbn [nth_error app].
  destruct (Z.eqb_spec status 1) as [E | _]; [contradiction | reflexivity].
Qed.

End PassFacts.

Lemma wait_follows_an_accepted_submission_witness :
  (Ok 1%Z = wait_for_transaction_receipt Scenarios.scenario_B 1002%Z
   /\ exists s, In (EvSendRawTransaction s (Ok 1002%Z))
                   (fst (Bot.iteration Scenarios.scenario_B)))
  /\ exists receipt, In (EvWaitReceipt 1002%Z (Ok receipt))
                        (fst (Bot.iteration Scenarios.scenario_B)).
Proof.
  destruct (wait_follows_an_accepted_submission Scenarios.scenario_B 1002%Z)
    as [H1 H2].
  split; [apply (H1 (Ok 1%Z)) | apply H2];
    vm_compute; repeat (first [left; reflexivity | right]).
Defined.

Lemma any_receipt_is_logged_as_complete_witness :
  let w := MoreScenarios.scenario_B_reverted in
  let d := {| td_address := Scenarios.TROVE;
              td_collateral := (Z2F (Scenarios.ETH 1500) / Bot.WAD)%float;
              td_debt := (Z2F (Scenarios.ETH 3000000) / Bot.WAD)%float;
              td_collateral_ratio :=
                (Z2F (Scenarios.ETH 1500) / Bot.WAD * Z2F 1900
                 / (Z2F (Scenarios.ETH 3000000) / Bot.WAD))%float |} in
  Bot.iteration w
  = (fst (Bot.read_lowest_trove w)
       ++ EvLog INFO (MsgLowest d) :: EvLog INFO (MsgAttempting Scenarios.TROVE)
       :: fst (Bot.liquidate_trove Scenarios.TROVE w)
       ++ [EvWaitReceipt 1004%Z (Ok 0%Z); EvLog INFO (MsgComplete 1004%Z); EvSleep 15],
     Ok tt).
Proof.
  intros w d.
  apply (any_receipt_is_logged_as_complete w
           (fst (Bot.read_lowest_trove w)) (fst (Bot.liquidate_trove Scenarios.TROVE w))
           d 1004%Z 0%Z);
    vm_compute; reflexivity.
Defined.

Lemma short_trove_tuple_is_an_index_error_witness :
  Bot.iteration MoreScenarios.short_tuple
  = ([EvFirstTrove (Ok Scenarios.TROVE);
      EvTroves Scenarios.TROVE (Ok [Scenarios.ETH 3000000]);
      EvLog ERROR (MsgError IndexError); EvSleep 5], Ok tt).
Proof.
  apply (short_trove_tuple_is_an_index_error MoreScenarios.short_tuple
           Scenarios.TROVE [Scenarios.ETH 3000000]);
    [reflexivity | reflexivity | simpl; lia].
Defined.

Lemma non_numeric_price_ends_the_pass_witness :
  Bot.iteration MoreScenarios.price_null
  = ([EvFirstTrove (Ok Scenarios.TROVE);
      EvTroves Scenarios.TROVE
        (Ok [Scenarios.ETH 3000000; Scenarios.ETH 1500; Scenarios.ETH 1500; 1%Z; 0%Z]);
      EvHttpGetPrice (Ok PyNone); EvLog ERROR (MsgError TypeError); EvSleep 5],
     Ok tt)
  /\ snd (Bot.get_trove_details Scenarios.TROVE MoreScenarios.price_false)
     = Ok (Some {| td_address := Scenarios.TROVE;
                   td_collateral := (Z2F (Scenarios.ETH 1500) / Bot.WAD)%float;
                   td_debt := (Z2F (Scenarios.ETH 3000000) / Bot.WAD)%float;
                   td_collateral_ratio :=
                     (Z2F (Scenarios.ETH 1500) / Bot.WAD * 0
                      / (Z2F (Scenarios.ETH 3000000) / Bot.WAD))%float |}).
Proof.
  split.
  - destruct (non_numeric_price_ends_the_pass MoreScenarios.price_null Scenarios.TROVE
                (Scenarios.ETH 3000000) (Scenarios.ETH 1500)
                [Scenarios.ETH 1500; 1%Z; 0%Z] PyNone
                (Z2F (Scenarios.ETH 1500) / Bot.WAD)%float
                (Z2F (Scenarios.ETH 3000000) / Bot.WAD)%float)
      as [Null _]; [vm_compute; reflexivity .. | apply Null; reflexivity].
  - destruct (non_numeric_price_ends_the_pass MoreScenarios.price_false Scenarios.TROVE
                (Scenarios.ETH 3000000) (Scenarios.ETH 1500)
                [Scenarios.ETH 1500; 1%Z; 0%Z] (PyBool false)
                (Z2F (Scenarios.ETH 1500) / Bot.WAD)%float
                (Z2F (Scenarios.ETH 3000000) / Bot.WAD)%float)
      as [_ Bool]; [vm_compute; reflexivity .. | apply (Bool false); reflexivity].
Defined.


Lemma report_and_bot_agree_on_active_trove_witness :
  let w := Scenarios.scenario_A in
  let coll := (Z2F (Scenarios.ETH 2000) / Bot.WAD)%float in
  let debt := (Z2F (Scenarios.ETH 3000000) / Bot.WAD)%float in
  PositionInfo.get_trove_info Scenarios.TROVE w
  = (fst (Bot.get_trove_details Scenarios.TROVE w),
     Ok (PositionInfo.Active coll debt (coll * Z2F 2000 / debt)%float))
  /\ snd (Bot.get_trove_details Scenarios.TROVE w)
     = Ok (Some {| td_address := Scenarios.TROVE; td_collateral := coll;
                   td_debt := debt;
                   td_collateral_ratio := (coll * Z2F 2000 / debt)%float |}).
Proof.
  intros w coll debt.
  apply (report_and_bot_agree_on_active_trove w Scenarios.TROVE
           (Scenarios.ETH 3000000) (Scenarios.ETH 2000) (Scenarios.ETH 2000)
           [0%Z] (PyInt 2000) coll debt (Z2F 2000));
    vm_compute; reflexivity.
Defined.

Lemma inactive_trove_reads_no_price_witness :
  PositionInfo.get_trove_info Scenarios.TROVE MoreScenarios.closed_trove
  = ([EvTroves Scenarios.TROVE (Ok [0%Z; 0%Z; 0%Z; 2%Z; 0%Z])],
     Ok PositionInfo.NotActive).
Proof.
  apply (inactive_trove_reads_no_price MoreScenarios.closed_trove Scenarios.TROVE
           0%Z 0%Z 0%Z 2%Z [0%Z] (Z2F 0 / Bot.WAD)%float (Z2F 0 / Bot.WAD)%float);
    [reflexivity | discriminate | vm_compute; reflexivity | vm_compute; reflexivity].
Defined.

(** ** The yield estimate of the position report *)

(** X12.  [calculate_apr] guards the initial balance and nothing else: with
    an initial balance of 0 (or -0.0) it returns the int 0 whatever the
    other arguments are, zero days included; with any other initial balance
    zero days raise [ZeroDivisionError] at [1/days]. *)
Theorem calculate_apr_guards_only_the_balance
    (float_pow : float -> float -> result float)
    (initial_balance current_balance : float) (days : Z) :
  ((initial_balance =? 0)%float = true ->
   Apr.calculate_apr float_pow initial_balance current_balance days = Ok Apr.AprZero)
  /\ ((initial_balance =? 0)%float = false ->
      Apr.calculate_apr float_pow initial_balance current_balance 0
      = Raise ZeroDivisionError).
Proof.
  unfold Apr.calculate_apr, truediv.
  split; intros ->; reflexivity.
Qed.

Lemma calculate_apr_guards_only_the_balance_witness :
  Apr.calculate_apr (fun _ _ => Ok 1%float) 0%float 5%float 0 = Ok Apr.AprZero
  /\ Apr.calculate_apr (fun _ _ => Ok 1%float) 2%float 5%float 0
     = Raise ZeroDivisionError.
Proof.
  split.
  - apply (calculate_apr_guards_only_the_balance (fun _ _ => Ok 1%float)
             0%float 5%float 0).
    vm_compute. reflexivity.
  - apply (calculate_apr_guards_only_the_balance (fun _ _ => Ok 1%float)
             2%float 5%float 0).
    vm_compute. reflexivity.
Defined.

(** ** Rounding of the specification floats *)

Section RoundingFacts.
Import Rounding.
Local Open Scope Z_scope.

Ltac dlia := Z.div_mod_to_equations; lia.

(** Digits *)

Lemma digits2_pos_spec (p : positive) :
  2 ^ (Z.pos (digits2_pos p) - 1) <= Z.pos p < 2 ^ Z.pos (digits2_pos p).
Proof.
  induction p as [p IH | p IH |]; cbn [digits2_pos].
  - rewrite Pos2Z.inj_succ.
    replace (Z.succ (Z.pos (digits2_pos p)) - 1) with (Z.succ (Z.pos (digits2_pos p) - 1)) by lia.
    rewrite !Z.pow_succ_r by lia. lia.
  - rewrite Pos2Z.inj_succ.
    replace (Z.succ (Z.pos (digits2_pos p)) - 1) with (Z.succ (Z.pos (digits2_pos p) - 1)) by lia.
    rewrite !Z.pow_succ_r by lia. lia.
  - cbn. lia.
Qed.

Lemma Zdigits2_spec (m : Z) :
  0 < m -> 2 ^ (Zdigits2 m - 1) <= m < 2 ^ Zdigits2 m.
Proof.
  destruct m as [| p | p]; try lia. intros _. apply digits2_pos_spec.
Qed.

Lemma Zdigits2_pos (m : Z) : 0 < m -> 0 < Zdigits2 m.
Proof. destruct m; cbn; lia. Qed.

Lemma Zdigits2_nonneg (m : Z) : 0 <= Zdigits2 m.
Proof. destruct m; cbn; lia. Qed.

(** [m < 2 ^ n] bounds the digits. *)
Lemma Zdigits2_le_of_lt (m n : Z) : 0 < m -> m < 2 ^ n -> Zdigits2 m <= n.
Proof.
  intros Hm H. pose proof (Zdigits2_spec m Hm) as [L _].
  pose proof (Zdigits2_pos m Hm).
  destruct (Z.le_gt_cases (Zdigits2 m) n) as [|G]; [assumption | exfalso].
  assert (2 ^ n <= 2 ^ (Zdigits2 m - 1)).
  { destruct (Z.le_gt_cases 0 n).
    - apply Z.pow_le_mono_r; lia.
    - rewrite (Z.pow_neg_r 2 n) by lia. apply Z.pow_nonneg. lia. }
  lia.
Qed.

Lemma Zdigits2_ge_of_le (m n : Z) : 0 <= n -> 2 ^ n <= m -> n + 1 <= Zdigits2 m.
Proof.
  intros Hn H.
  assert (Hm : 0 < m) by (pose proof (Z.pow_pos_nonneg 2 n); lia).
  pose proof (Zdigits2_spec m Hm) as [_ U].
  pose proof (Zdigits2_pos m Hm).
  destruct (Z.le_gt_cases (n + 1) (Zdigits2 m)) as [|G]; [assumption | exfalso].
  assert (2 ^ Zdigits2 m <= 2 ^ n) by (apply Z.pow_le_mono_r; lia).
  lia.
Qed.

Lemma Zdigits2_mono (m m' : Z) : 0 < m -> m <= m' -> Zdigits2 m <= Zdigits2 m'.
Proof.
  intros Hm H. pose proof (Zdigits2_spec m Hm) as [L _].
  pose proof (Zdigits2_pos m Hm).
  assert (Zdigits2 m - 1 + 1 <= Zdigits2 m') by (apply Zdigits2_ge_of_le; lia).
  lia.
Qed.

(** Shifting *)

Lemma shr_1_m (mrs : shr_record) :
  0 <= shr_m mrs -> shr_m (shr_1 mrs) = shr_m mrs / 2.
Proof.
  destruct mrs as [m r s]. cbn [shr_m]. intros H.
  rewrite <- Z.div2_div.
  destruct m as [| [p | p |] | p]; try reflexivity. lia.
Qed.

Lemma iter_pos_shr_m (p : positive) : forall mrs,
  0 <= shr_m mrs -> shr_m (SpecFloat.iter_pos shr_1 p mrs) = shr_m mrs / 2 ^ Z.pos p.
Proof.
  induction p as [p IH | p IH |]; intros mrs H; cbn [SpecFloat.iter_pos].
  - assert (H1 : 0 <= shr_m (shr_1 mrs))
      by (rewrite shr_1_m by assumption; apply Z.div_pos; lia).
    assert (H2 : 0 <= shr_m (SpecFloat.iter_pos shr_1 p (shr_1 mrs)))
      by (rewrite IH by assumption; apply Z.div_pos; [lia | apply Z.pow_pos_nonneg; lia]).
    rewrite IH by assumption. rewrite IH by assumption. rewrite shr_1_m by assumption.
    rewrite !Z.div_div by (try apply Z.pow_pos_nonneg; lia).
    f_equal.
    replace (Z.pos p~1) with (1 + Z.pos p + Z.pos p) by lia.
    rewrite !Z.pow_add_r by lia. lia.
  - assert (H2 : 0 <= shr_m (SpecFloat.iter_pos shr_1 p mrs))
      by (rewrite IH by assumption; apply Z.div_pos; [lia | apply Z.pow_pos_nonneg; lia]).
    rewrite IH by assumption. rewrite IH by assumption.
    rewrite !Z.div_div by (try apply Z.pow_pos_nonneg; lia).
    f_equal.
    replace (Z.pos p~0) with (Z.pos p + Z.pos p) by lia.
    rewrite !Z.pow_add_r by lia. lia.
  - rewrite shr_1_m by assumption. reflexivity.
Qed.


Lemma shr_record_of_loc_m m l : shr_m (shr_record_of_loc m l) = m.
Proof. destruct l as [| []]; reflexivity. Qed.

Lemma shr_fexp_shifted (m e : Z) (l : location) :
  0 <= m ->
  (shr_m (fst (shr_fexp prec emax m e l)), snd (shr_fexp prec emax m e l))
  = shifted m e (fexp prec emax (Zdigits2 m + e) - e).
Proof.
  intros H. unfold shr_fexp, shr, shifted.
  destruct (fexp prec emax (Zdigits2 m + e) - e) as [| p | p]; cbn [fst snd Z.ltb Z.compare].
  - now rewrite shr_record_of_loc_m.
  - rewrite iter_pos_shr_m by (rewrite shr_record_of_loc_m; assumption).
    now rewrite shr_record_of_loc_m.
  - now rewrite shr_record_of_loc_m.
Qed.

Lemma round_nearest_even_bounds (m : Z) (l : location) :
  m <= round_nearest_even m l <= m + 1.
Proof.
  destruct l as [| []]; cbn [round_nearest_even]; try lia.
  destruct (Z.even m); lia.
Qed.


Lemma binary_round_aux_spec (sx : bool) (mx ex : Z) (lx : location) :
  0 <= mx ->
  let k1 := fexp prec emax (Zdigits2 mx + ex) - ex in
  let m1 := fst (shifted mx ex k1) in
  let e1 := snd (shifted mx ex k1) in
  exists mr,
    m1 <= mr <= m1 + 1
    /\ let k2 := fexp prec emax (Zdigits2 mr + e1) - e1 in
       binary_round_aux prec emax sx mx ex lx
       = finish sx (fst (shifted mr e1 k2)) (snd (shifted mr e1 k2)).
Proof.
  intros H k1 m1 e1.
  pose proof (shr_fexp_shifted mx ex lx H) as S1. fold k1 in S1.
  unfold binary_round_aux.
  destruct (shr_fexp prec emax mx ex lx) as [mrs' e'] eqn:E1. cbn [fst snd] in S1.
  set (mr := round_nearest_even (shr_m mrs') (loc_of_shr_record mrs')).
  assert (Hm1 : shr_m mrs' = m1) by (unfold m1; rewrite <- S1; reflexivity).
  assert (He1 : e' = e1) by (unfold e1; rewrite <- S1; reflexivity).
  assert (M1 : 0 <= m1).
  { unfold m1, shifted. destruct (Z.ltb_spec 0 k1); cbn [fst]; [| assumption].
    apply Z.div_pos; [assumption | apply Z.pow_pos_nonneg; lia]. }
  exists mr. split.
  { unfold mr. rewrite Hm1. apply round_nearest_even_bounds. }
  cbv zeta.
  assert (Hmr : 0 <= mr).
  { unfold mr. pose proof (round_nearest_even_bounds (shr_m mrs') (loc_of_shr_record mrs')). lia. }
  pose proof (shr_fexp_shifted mr e' loc_Exact Hmr) as S2.
  destruct (shr_fexp prec emax mr e' loc_Exact) as [mrs'' e''] eqn:E2. cbn [fst snd] in S2.
  subst e'. rewrite <- S2. cbn [fst snd]. reflexivity.
Qed.

Lemma fexp_val (x : Z) : fexp prec emax x = Z.max (x - 53) (-1074).
Proof. reflexivity. Qed.

Lemma pow2_pos (k : Z) : 0 <= k -> 0 < 2 ^ k.
Proof. intros. apply Z.pow_pos_nonneg; lia. Qed.

Lemma pow2_le (a b : Z) : 0 <= a <= b -> 2 ^ a <= 2 ^ b.
Proof. intros. apply Z.pow_le_mono_r; lia. Qed.

Lemma pow2_lt (a b : Z) : 0 <= a < b -> 2 ^ a < 2 ^ b.
Proof. intros. apply Z.pow_lt_mono_r; lia. Qed.

Lemma pow2_split (a b : Z) : 0 <= a -> 0 <= b -> 2 ^ (a + b) = 2 ^ a * 2 ^ b.
Proof. intros. apply Z.pow_add_r; lia. Qed.

(** [m / 2 ^ k] for [m < 2 ^ n]. *)
Lemma div_pow2_lt (m n k : Z) :
  0 <= m -> 0 <= k <= n -> m < 2 ^ n -> m / 2 ^ k < 2 ^ (n - k).
Proof.
  intros Hm Hk H. apply Z.div_lt_upper_bound; [now apply pow2_pos |].
  rewrite <- pow2_split by lia. replace (k + (n - k)) with n by lia. exact H.
Qed.

Lemma div_pow2_ge (m n k : Z) :
  0 <= k <= n -> 2 ^ n <= m -> 2 ^ (n - k) <= m / 2 ^ k.
Proof.
  intros Hk H. apply Z.div_le_lower_bound; [now apply pow2_pos |].
  rewrite <- pow2_split by lia. replace (k + (n - k)) with n by lia. exact H.
Qed.

Lemma div_pow2_small (m n k : Z) :
  0 <= m -> 0 <= n <= k -> m < 2 ^ n -> m / 2 ^ k = 0.
Proof.
  intros Hm Hk H. apply Z.div_small. split; [assumption |].
  pose proof (pow2_le n k ltac:(lia)). lia.
Qed.


Lemma finish_class sx m e : 0 <= m -> signed_class sx (finish sx m e).
Proof.
  intros H. unfold finish, signed_class. destruct m as [| p | p]; [auto | | lia].
  destruct (e <=? emax - prec); eauto.
Qed.

Lemma shifted_fst_nonneg m e k : 0 <= m -> 0 <= fst (shifted m e k).
Proof.
  intros H. unfold shifted. destruct (Z.ltb_spec 0 k); cbn [fst]; [| assumption].
  apply Z.div_pos; [assumption | apply pow2_pos; lia].
Qed.

Lemma shifted_zero f k : fst (shifted 0 f k) = 0.
Proof.
  unfold shifted. destruct (Z.ltb_spec 0 k); cbn [fst]; [| reflexivity].
  apply Z.div_0_l. apply Z.pow_nonzero; lia.
Qed.

Lemma binary_round_aux_class sx mx ex lx :
  0 <= mx -> signed_class sx (binary_round_aux prec emax sx mx ex lx).
Proof.
  intros H. destruct (binary_round_aux_spec sx mx ex lx H) as (mr & [L _] & ->).
  apply finish_class. apply shifted_fst_nonneg.
  pose proof (shifted_fst_nonneg mx ex (fexp prec emax (Zdigits2 mx + ex) - ex) H). lia.
Qed.

(** The rounding of a mantissa that has digits enough for its exponent. *)
Lemma binary_round_aux_enough sx mx ex lx :
  0 < mx ->
  ex <= fexp prec emax (Zdigits2 mx + ex) ->
  let f1 := fexp prec emax (Zdigits2 mx + ex) in
  exists mr,
    mx / 2 ^ (f1 - ex) <= mr <= mx / 2 ^ (f1 - ex) + 1
    /\ binary_round_aux prec emax sx mx ex lx
       = finish sx (fst (shifted mr f1 (fexp prec emax (Zdigits2 mr + f1) - f1)))
                   (snd (shifted mr f1 (fexp prec emax (Zdigits2 mr + f1) - f1))).
Proof.
  intros Hm P f1.
  destruct (binary_round_aux_spec sx mx ex lx ltac:(lia)) as (mr & B & E).
  fold f1 in B, E. cbv zeta in E.
  assert (S : shifted mx ex (f1 - ex) = (mx / 2 ^ (f1 - ex), f1)).
  { unfold shifted. destruct (Z.ltb_spec 0 (f1 - ex)).
    - f_equal. lia.
    - assert (f1 = ex) by (unfold f1 in *; lia).
      replace (f1 - ex) with 0 by lia. rewrite Z.pow_0_r, Z.div_1_r. now f_equal. }
  rewrite S in B, E. cbn [fst snd] in B, E.
  exists mr. split; assumption.
Qed.

(** Digits of what is left after the first shift and the rounding. *)
Lemma rounded_digits mx ex mr :
  0 < mx ->
  let d := Zdigits2 mx in
  let f1 := fexp prec emax (d + ex) in
  ex <= f1 ->
  mx / 2 ^ (f1 - ex) <= mr <= mx / 2 ^ (f1 - ex) + 1 ->
  0 < mr ->
  Zdigits2 mr + f1 <= Z.max (d + ex) f1 + 1.
Proof.
  intros Hm d f1 P B Hr.
  pose proof (Zdigits2_spec mx Hm) as [_ U]. fold d in U.
  pose proof (Zdigits2_pos mx Hm) as Dp. fold d in Dp.
  destruct (Z.le_gt_cases (f1 - ex) d) as [K | K].
  - pose proof (div_pow2_lt mx d (f1 - ex) ltac:(lia) ltac:(lia) U) as Q.
    assert (mr < 2 ^ (d - (f1 - ex) + 1)).
    { rewrite pow2_split by lia. change (2 ^ 1) with 2. lia. }
    pose proof (Zdigits2_le_of_lt mr _ Hr H). lia.
  - rewrite (div_pow2_small mx d (f1 - ex)) in B by lia.
    assert (mr = 1) by lia. subst mr. change (Zdigits2 1) with 1. lia.
Qed.

Lemma shifted_exp (mr f1 : Z) :
  let k2 := fexp prec emax (Zdigits2 mr + f1) - f1 in
  snd (shifted mr f1 k2) = Z.max f1 (fexp prec emax (Zdigits2 mr + f1)).
Proof.
  intros k2. unfold shifted. destruct (Z.ltb_spec 0 k2); cbn [snd]; lia.
Qed.

(** No overflow when the value is below [2 ** 1023]. *)
Lemma binary_round_aux_finite sx mx ex lx :
  0 < mx ->
  ex <= fexp prec emax (Zdigits2 mx + ex) ->
  Zdigits2 mx + ex <= 1023 ->
  binary_round_aux prec emax sx mx ex lx = S754_zero sx
  \/ exists m e,
       binary_round_aux prec emax sx mx ex lx = S754_finite sx m e
       /\ Zdigits2 (Z.pos m) + e <= Z.max (Zdigits2 mx + ex) (-1074) + 1.
Proof.
  intros Hm P D.
  destruct (binary_round_aux_enough sx mx ex lx Hm P) as (mr & B & ->).
  set (f1 := fexp prec emax (Zdigits2 mx + ex)) in *.
  assert (Hm1 : 0 <= mx / 2 ^ (f1 - ex))
    by (apply Z.div_pos; [lia | apply pow2_pos; lia]).
  destruct (Z.eq_dec mr 0) as [-> | Nz].
  { left. now rewrite shifted_zero. }
  assert (Hr : 0 < mr) by lia.
  pose proof (rounded_digits mx ex mr Hm P B Hr) as R. fold f1 in R.
  pose proof (shifted_exp mr f1) as SE. cbv zeta in SE.
  set (k2 := fexp prec emax (Zdigits2 mr + f1) - f1) in *.
  assert (F1 : f1 = Z.max (Zdigits2 mx + ex - 53) (-1074)) by reflexivity.
  assert (F2 : fexp prec emax (Zdigits2 mr + f1) = Z.max (Zdigits2 mr + f1 - 53) (-1074))
    by reflexivity.
  assert (E2 : snd (shifted mr f1 k2) <= 971) by lia.
  pose proof (shifted_fst_nonneg mr f1 k2 ltac:(lia)) as M2.
  unfold finish.
  destruct (fst (shifted mr f1 k2)) as [| p | p] eqn:EM; [now left | | lia].
  right. exists p, (snd (shifted mr f1 k2)).
  change (emax - prec) with 971.
  destruct (Z.leb_spec (snd (shifted mr f1 k2)) 971); [| lia].
  split; [reflexivity |].
  (* digits of the shifted mantissa *)
  unfold shifted in EM |- *. destruct (Z.ltb_spec 0 k2); cbn [fst snd] in *.
  - assert (Dp : Zdigits2 (Z.pos p) <= Zdigits2 mr - k2).
    { apply Zdigits2_le_of_lt; [lia |]. rewrite <- EM.
      pose proof (Zdigits2_spec mr Hr) as [_ U].
      destruct (Z.le_gt_cases k2 (Zdigits2 mr)).
      - apply div_pow2_lt; lia.
      - rewrite (div_pow2_small mr (Zdigits2 mr) k2) in EM
          by (pose proof (Zdigits2_nonneg mr); lia).
        discriminate EM. }
    lia.
  - subst mr. lia.
Qed.

(** A value of at least [2 ** -1074] is not rounded to zero. *)
Lemma binary_round_aux_nonzero sx mx ex lx :
  0 < mx ->
  ex <= fexp prec emax (Zdigits2 mx + ex) ->
  -1074 < Zdigits2 mx + ex ->
  (exists m e, binary_round_aux prec emax sx mx ex lx = S754_finite sx m e)
  \/ binary_round_aux prec emax sx mx ex lx = S754_infinity sx.
Proof.
  intros Hm P D.
  destruct (binary_round_aux_enough sx mx ex lx Hm P) as (mr & B & ->).
  set (f1 := fexp prec emax (Zdigits2 mx + ex)) in *.
  assert (F1 : f1 = Z.max (Zdigits2 mx + ex - 53) (-1074)) by reflexivity.
  pose proof (Zdigits2_spec mx Hm) as [L _].
  pose proof (Zdigits2_pos mx Hm) as Dp.
  assert (M1 : 1 <= mx / 2 ^ (f1 - ex)).
  { pose proof (div_pow2_ge mx (Zdigits2 mx - 1) (f1 - ex) ltac:(lia) L) as Q.
    pose proof (pow2_pos (Zdigits2 mx - 1 - (f1 - ex)) ltac:(lia)). lia. }
  assert (Hr : 0 < mr) by lia.
  pose proof (Zdigits2_spec mr Hr) as [Lr _].
  pose proof (Zdigits2_pos mr Hr) as Dr.
  set (k2 := fexp prec emax (Zdigits2 mr + f1) - f1) in *.
  assert (F2 : fexp prec emax (Zdigits2 mr + f1) = Z.max (Zdigits2 mr + f1 - 53) (-1074))
    by reflexivity.
  assert (M2 : 0 < fst (shifted mr f1 k2)).
  { unfold shifted. destruct (Z.ltb_spec 0 k2); cbn [fst]; [| assumption].
    pose proof (div_pow2_ge mr (Zdigits2 mr - 1) k2 ltac:(lia) Lr) as Q.
    pose proof (pow2_pos (Zdigits2 mr - 1 - k2) ltac:(lia)). lia. }
  unfold finish. destruct (fst (shifted mr f1 k2)) as [| p | p]; [lia | | lia].
  destruct (_ <=? _); eauto.
Qed.

(** A negative value above -1 is rounded to a float that is not below -1. *)
Lemma binary_round_aux_above_minus_one mx ex lx :
  0 < mx ->
  ex <= fexp prec emax (Zdigits2 mx + ex) ->
  ex <= 0 ->
  mx < 2 ^ (- ex) ->
  SFleb (S754_finite true 4503599627370496 (-52))
        (binary_round_aux prec emax true mx ex lx) = true.
Proof.
  intros Hm P Ex V.
  destruct (binary_round_aux_enough true mx ex lx Hm P) as (mr & B & ->).
  set (f1 := fexp prec emax (Zdigits2 mx + ex)) in *.
  assert (F1 : f1 = Z.max (Zdigits2 mx + ex - 53) (-1074)) by reflexivity.
  pose proof (Zdigits2_le_of_lt mx (- ex) Hm V) as D.
  pose proof (Zdigits2_pos mx Hm) as Dp.
  assert (F1le : f1 <= -53) by lia.
  assert (M1 : mx / 2 ^ (f1 - ex) < 2 ^ (- f1)).
  { replace (- f1) with (- ex - (f1 - ex)) by lia. apply div_pow2_lt; lia. }
  assert (Hm1 : 0 <= mx / 2 ^ (f1 - ex))
    by (apply Z.div_pos; [lia | apply pow2_pos; lia]).
  destruct (Z.eq_dec mr 0) as [-> | Nz].
  { now rewrite shifted_zero. }
  assert (Hr : 0 < mr) by lia.
  assert (Rle : mr <= 2 ^ (- f1)) by lia.
  assert (Dr : Zdigits2 mr <= - f1 + 1).
  { apply Zdigits2_le_of_lt; [assumption |].
    rewrite pow2_split by lia. change (2 ^ 1) with 2.
    pose proof (pow2_pos (- f1) ltac:(lia)). lia. }
  pose proof (Zdigits2_pos mr Hr) as Drp.
  pose proof (Zdigits2_spec mr Hr) as [Lr Ur].
  set (k2 := fexp prec emax (Zdigits2 mr + f1) - f1) in *.
  assert (F2 : fexp prec emax (Zdigits2 mr + f1) = Z.max (Zdigits2 mr + f1 - 53) (-1074))
    by reflexivity.
  unfold shifted. destruct (Z.ltb_spec 0 k2); cbn [fst snd].
  - (* a second shift *)
    assert (M2 : 0 < mr / 2 ^ k2).
    { pose proof (div_pow2_ge mr (Zdigits2 mr - 1) k2 ltac:(lia) Lr) as Q.
      pose proof (pow2_pos (Zdigits2 mr - 1 - k2) ltac:(lia)). lia. }
    unfold finish. destruct (mr / 2 ^ k2) as [| p | p] eqn:EM; [lia | | lia].
    change (emax - prec) with 971.
    destruct (Z.leb_spec (f1 + k2) 971); [| lia].
    unfold SFleb, SFcompare.
    destruct (Z.compare_spec (-52) (f1 + k2)) as [E | E | E]; [| lia | reflexivity].
    (* exponent -52: the mantissa is 2 ** 52 *)
    assert (Dm : Zdigits2 mr = - f1 + 1) by lia.
    assert (mr = 2 ^ (- f1)).
    { rewrite Dm in Lr. replace (- f1 + 1 - 1) with (- f1) in Lr by lia. lia. }
    assert (K : k2 = - f1 - 52) by lia.
    assert (Z.pos p = 2 ^ 52).
    { rewrite <- EM. subst mr. rewrite K.
      replace (- f1) with (52 + (- f1 - 52)) at 1 by lia.
      rewrite pow2_split by lia.
      apply Z.div_mul. apply Z.pow_nonzero; lia. }
    assert (p = 4503599627370496%positive) by lia. subst p.
    reflexivity.
  - unfold finish. destruct mr as [| p | p]; [lia | | lia].
    change (emax - prec) with 971.
    destruct (Z.leb_spec f1 971); [| lia].
    unfold SFleb, SFcompare.
    destruct (Z.compare_spec (-52) f1) as [E | E | E]; [lia | lia | reflexivity].
Qed.

(** Aligning to a smaller exponent *)

Lemma iter_xO (d : positive) (m : positive) :
  Z.pos (Pos.iter xO m d) = Z.pos m * 2 ^ Z.pos d.
Proof.
  induction d as [| d IH] using Pos.peano_ind.
  - cbn [Pos.iter]. rewrite Pos2Z.inj_xO. change (2 ^ 1) with 2. lia.
  - rewrite Pos.iter_succ, Pos2Z.inj_xO, IH, Pos2Z.inj_succ, Z.pow_succ_r by lia. lia.
Qed.

Lemma shl_align_spec (mx : positive) (ex ex' : Z) :
  let mz := fst (shl_align mx ex ex') in
  let ez := snd (shl_align mx ex ex') in
  ez = Z.min ex ex' /\ Z.pos mz = Z.pos mx * 2 ^ (ex - ez).
Proof.
  unfold shl_align. destruct (ex' - ex) as [| d | d] eqn:E; cbn [fst snd].
  - split; [lia |]. replace (ex - ex) with 0 by lia. cbn. lia.
  - split; [lia |]. replace (ex - ex) with 0 by lia. cbn. lia.
  - split; [lia |]. rewrite iter_xO. f_equal. f_equal. lia.
Qed.

Lemma Zdigits2_mul_pow2 (m k : Z) :
  0 < m -> 0 <= k -> Zdigits2 (m * 2 ^ k) = Zdigits2 m + k.
Proof.
  intros Hm Hk.
  pose proof (Zdigits2_spec m Hm) as [L U].
  pose proof (Zdigits2_pos m Hm) as Dp.
  pose proof (pow2_pos k Hk) as Pk.
  assert (Hp : 0 < m * 2 ^ k) by lia.
  apply Z.le_antisymm.
  - apply Zdigits2_le_of_lt; [assumption |].
    rewrite pow2_split by lia. nia.
  - replace (Zdigits2 m + k) with (Zdigits2 m - 1 + k + 1) by lia.
    apply Zdigits2_ge_of_le; [lia |].
    rewrite pow2_split by lia. nia.
Qed.

Lemma binary_round_as_aux (sx : bool) (mx : positive) (ex : Z) :
  exists mz ez,
    binary_round prec emax sx mx ex
    = binary_round_aux prec emax sx (Z.pos mz) ez loc_Exact
    /\ ez <= ex
    /\ Z.pos mz = Z.pos mx * 2 ^ (ex - ez)
    /\ ez <= fexp prec emax (Zdigits2 (Z.pos mz) + ez)
    /\ Zdigits2 (Z.pos mz) + ez = Zdigits2 (Z.pos mx) + ex.
Proof.
  unfold binary_round.
  pose proof (shl_align_spec mx ex (fexp prec emax (Z.pos (digits2_pos mx) + ex)))
    as [E V]. cbv zeta in E, V.
  destruct (shl_align mx ex (fexp prec emax (Z.pos (digits2_pos mx) + ex)))
    as [mz ez]. cbn [fst snd] in E, V.
  exists mz, ez. split; [reflexivity |].
  assert (D : Zdigits2 (Z.pos mz) + ez = Zdigits2 (Z.pos mx) + ex).
  { rewrite V, Zdigits2_mul_pow2 by lia. lia. }
  change (Z.pos (digits2_pos mx)) with (Zdigits2 (Z.pos mx)) in E.
  repeat split; try assumption; try lia.
  rewrite D. lia.
Qed.

Lemma binary_round_class sx mx ex :
  signed_class sx (binary_round prec emax sx mx ex).
Proof.
  destruct (binary_round_as_aux sx mx ex) as (mz & ez & -> & _).
  apply binary_round_aux_class. lia.
Qed.

Lemma binary_round_nonzero sx mx ex :
  -1074 < Zdigits2 (Z.pos mx) + ex ->
  (exists m e, binary_round prec emax sx mx ex = S754_finite sx m e)
  \/ binary_round prec emax sx mx ex = S754_infinity sx.
Proof.
  intros D.
  destruct (binary_round_as_aux sx mx ex) as (mz & ez & -> & _ & _ & P & E).
  apply binary_round_aux_nonzero; [lia | assumption | lia].
Qed.

Lemma binary_round_above_minus_one mx ex :
  ex <= 0 ->
  Z.pos mx < 2 ^ (- ex) ->
  SFleb (S754_finite true 4503599627370496 (-52))
        (binary_round prec emax true mx ex) = true.
Proof.
  intros Ex V.
  destruct (binary_round_as_aux true mx ex) as (mz & ez & -> & L & M & P & _).
  apply binary_round_aux_above_minus_one; [lia | assumption | lia |].
  rewrite M. replace (- ez) with (- ex + (ex - ez)) by lia.
  rewrite pow2_split by lia.
  pose proof (pow2_pos (ex - ez) ltac:(lia)). nia.
Qed.

(** The square root *)

Lemma bounded_digits (m : positive) (e : Z) :
  SpecFloat.bounded prec emax m e = true ->
  Zdigits2 (Z.pos m) + e <= 1024 /\ -1074 <= e.
Proof.
  unfold SpecFloat.bounded, canonical_mantissa. intros H.
  apply andb_prop in H as [C B].
  apply Z.eqb_eq in C. apply Z.leb_le in B.
  change (Z.pos (digits2_pos m)) with (Zdigits2 (Z.pos m)) in C.
  rewrite fexp_val in C. change (emax - prec) with 971 in B. lia.
Qed.

Lemma sqrt_core_facts (m : positive) (e : Z) :
  Zdigits2 (Z.pos m) + e <= 1024 ->
  let '(q, e', l) := SFsqrt_core_binary prec emax (Z.pos m) e in
  0 < q
  /\ e' <= fexp prec emax (Zdigits2 q + e')
  /\ Zdigits2 q + e' <= 512.
Proof.
  intros B. unfold SFsqrt_core_binary.
  set (d := Zdigits2 (Z.pos m)) in *.
  set (e' := Z.min (fexp prec emax (Z.div2 (d + e + 1))) (Z.div2 e)).
  assert (E1 : e' <= Z.max ((d + e + 1) / 2 - 53) (-1074))
    by (unfold e'; rewrite fexp_val, Z.div2_div; lia).
  assert (E2 : e' <= e / 2) by (unfold e'; rewrite (Z.div2_div e); lia).
  assert (S : 0 <= e - 2 * e') by dlia.
  set (m' := match e - 2 * e' with
             | 0 => Z.pos m
             | Z.pos _ => Z.shiftl (Z.pos m) (e - 2 * e')
             | Z.neg _ => 0
             end).
  assert (M : m' = Z.pos m * 2 ^ (e - 2 * e')).
  { unfold m'. destruct (e - 2 * e') as [| p | p] eqn:Es.
    - cbn. lia.
    - now rewrite Z.shiftl_mul_pow2 by lia.
    - lia. }
  clearbody m'.
  pose proof (Zdigits2_spec (Z.pos m) ltac:(lia)) as [L U]. fold d in L, U.
  pose proof (Zdigits2_pos (Z.pos m) ltac:(lia)) as Dp. fold d in Dp.
  pose proof (pow2_pos (e - 2 * e') S) as Ps.
  assert (Hm' : 0 < m') by nia.
  pose proof (Z.sqrtrem_spec m' ltac:(lia)) as Q.
  destruct (Z.sqrtrem m') as [q r].
  destruct Q as [Q1 Q2].
  assert (Hq : 0 < q) by nia.
  split; [exact Hq |].
  (* the mantissa is below 2 ** h *)
  set (h := (d + (e - 2 * e') + 1) / 2).
  assert (Hh : d + (e - 2 * e') <= 2 * h) by (unfold h; dlia).
  assert (Hh2 : h + e' = (d + e + 1) / 2) by (unfold h; dlia).
  assert (Up : m' < 2 ^ (2 * h)).
  { rewrite M.
    assert (2 ^ (d + (e - 2 * e')) <= 2 ^ (2 * h)) by (apply pow2_le; lia).
    rewrite pow2_split in H by lia. nia. }
  assert (Qh : q < 2 ^ h).
  { destruct (Z.lt_ge_cases q (2 ^ h)) as [|G]; [assumption | exfalso].
    replace (2 * h) with (h + h) in Up by lia. rewrite pow2_split in Up by lia.
    pose proof (pow2_pos h ltac:(lia)). nia. }
  pose proof (Zdigits2_le_of_lt q h Hq Qh) as Dq.
  split; [| dlia].
  (* digits enough *)
  rewrite fexp_val.
  destruct (Z.le_gt_cases e' (-1074)) as [|G]; [lia |].
  assert (E3 : e' <= (d + e + 1) / 2 - 53) by lia.
  assert (Low : 2 ^ 104 <= m').
  { rewrite M.
    assert (2 ^ 104 <= 2 ^ (d - 1 + (e - 2 * e'))) by (apply pow2_le; dlia).
    rewrite pow2_split in H by lia. nia. }
  assert (Q52 : 2 ^ 52 <= q).
  { destruct (Z.le_gt_cases (2 ^ 52) q) as [|G']; [assumption | exfalso].
    change (2 ^ 104) with (2 ^ 52 * 2 ^ 52) in Low.
    assert (q + 1 <= 2 ^ 52) by lia.
    assert ((q + 1) * (q + 1) <= 2 ^ 52 * 2 ^ 52)
      by (apply Z.mul_le_mono_nonneg; lia).
    lia. }
  pose proof (Zdigits2_ge_of_le q 52 ltac:(lia) Q52). lia.
Qed.

Lemma SFsqrt_finite (m : positive) (e : Z) :
  SpecFloat.bounded prec emax m e = true ->
  SF64sqrt (S754_finite false m e) = S754_zero false
  \/ exists ms es,
       SF64sqrt (S754_finite false m e) = S754_finite false ms es
       /\ Zdigits2 (Z.pos ms) + es <= 513.
Proof.
  intros B. apply bounded_digits in B as [B _].
  unfold SF64sqrt, SFsqrt.
  pose proof (sqrt_core_facts m e B) as F.
  destruct (SFsqrt_core_binary prec emax (Z.pos m) e) as [[q e'] l].
  destruct F as (Hq & P & D).
  destruct (binary_round_aux_finite false q e' l Hq P ltac:(lia))
    as [-> | (ms & es & -> & Ds)]; [now left | right].
  exists ms, es. split; [reflexivity | lia].
Qed.

(** Twice the root: zero or finite. *)
Lemma twice_root (s : spec_float) :
  (s = S754_zero false
   \/ exists ms es, s = S754_finite false ms es /\ Zdigits2 (Z.pos ms) + es <= 513) ->
  SF64mul SF_two s = S754_zero false
  \/ exists mn en, SF64mul SF_two s = S754_finite false mn en.
Proof.
  intros [-> | (ms & es & -> & D)]; [now left |].
  unfold SF64mul, SFmul, SF_two. cbn [xorb].
  assert (V : Z.pos (4503599627370496 * ms) = Z.pos ms * 2 ^ 52) by lia.
  assert (Dg : Zdigits2 (Z.pos (4503599627370496 * ms)) = Zdigits2 (Z.pos ms) + 52)
    by (rewrite V; apply Zdigits2_mul_pow2; lia).
  pose proof (Zdigits2_pos (Z.pos ms) ltac:(lia)) as Dp.
  destruct (binary_round_aux_finite false (Z.pos (4503599627370496 * ms)) (-51 + es)
              loc_Exact ltac:(lia)) as [-> | (mn & en & -> & _)].
  - rewrite Dg, fexp_val. lia.
  - rewrite Dg. lia.
  - now left.
  - right. eauto.
Qed.

(** One plus a finite float that is not negative: finite and not zero, or
    infinite. *)
Lemma one_plus (m : positive) (e : Z) :
  (exists md ed, SF64add SF_one (S754_finite false m e) = S754_finite false md ed)
  \/ SF64add SF_one (S754_finite false m e) = S754_infinity false.
Proof.
  unfold SF64add, SFadd, SF_one. cbn [cond_Zopp].
  set (ez := Z.min (-52) e).
  pose proof (shl_align_spec 4503599627370496 (-52) ez) as [E1 V1].
  pose proof (shl_align_spec m e ez) as [E2 V2].
  cbv zeta in E1, V1, E2, V2.
  set (a := fst (shl_align 4503599627370496 (-52) ez)) in *.
  set (b := fst (shl_align m e ez)) in *.
  assert (Ea : snd (shl_align 4503599627370496 (-52) ez) = ez) by (unfold ez in *; lia).
  rewrite Ea in V1.
  change (Z.pos a + Z.pos b) with (Z.pos (a + b)).
  cbn [binary_normalize].
  apply binary_round_nonzero.
  assert (Da : Zdigits2 (Z.pos a) = 53 + (-52 - ez)).
  { rewrite V1. rewrite Zdigits2_mul_pow2 by (unfold ez; lia). reflexivity. }
  pose proof (Zdigits2_mono (Z.pos a) (Z.pos (a + b)) ltac:(lia) ltac:(lia)). lia.
Qed.

(** The quotient of something zero or finite by something finite or
    infinite, neither negative, is no NaN and not negative. *)
Lemma quotient_class (n d : spec_float) :
  (n = S754_zero false \/ exists mn en, n = S754_finite false mn en) ->
  ((exists md ed, d = S754_finite false md ed) \/ d = S754_infinity false) ->
  signed_class false (SF64div n d).
Proof.
  intros [-> | (mn & en & ->)] [(md & ed & ->) | ->];
    unfold SF64div, SFdiv, signed_class; cbn [xorb]; auto.
  unfold SFdiv_core_binary.
  set (m' := match _ - _ - _ with Z.pos _ => _ | 0 => _ | Z.neg _ => _ end).
  assert (Hm' : 0 <= m').
  { unfold m'. destruct (_ - _ - _) as [| p | p]; try lia.
    apply Z.shiftl_nonneg. lia. }
  clearbody m'.
  pose proof (Z.div_pos m' (Z.pos md) Hm' ltac:(lia)) as Q.
  unfold Z.div in Q.
  destruct (Z.div_eucl m' (Z.pos md)) as [q r]. cbn [fst] in Q.
  apply binary_round_aux_class. exact Q.
Qed.

(** Such a quotient minus one is not below -1. *)
Lemma minus_one_above (q : spec_float) :
  signed_class false q ->
  SFleb SF_minus_one (SF64sub q SF_one) = true.
Proof.
  intros [-> | [(mq & eq & ->) | ->]]; try reflexivity.
  unfold SF64sub, SFsub, SF_one, SF_minus_one. cbn [cond_Zopp].
  set (ez := Z.min eq (-52)).
  pose proof (shl_align_spec mq eq ez) as [E1 V1].
  pose proof (shl_align_spec 4503599627370496 (-52) ez) as [E2 V2].
  cbv zeta in E1, V1, E2, V2.
  set (a := fst (shl_align mq eq ez)) in *.
  set (b := fst (shl_align 4503599627370496 (-52) ez)) in *.
  assert (Eb : snd (shl_align 4503599627370496 (-52) ez) = ez) by (unfold ez in *; lia).
  rewrite Eb in V2.
  assert (Vb : Z.pos b = 2 ^ (- ez)).
  { rewrite V2. change (Z.pos 4503599627370496) with (2 ^ 52).
    rewrite <- pow2_split by (unfold ez; lia). f_equal. lia. }
  destruct (Z.pos a - Z.pos b) as [| p | p] eqn:D; cbn [binary_normalize].
  - reflexivity.
  - destruct (binary_round_class false p ez) as [-> | [(m & e & ->) | ->]]; reflexivity.
  - apply binary_round_above_minus_one; [unfold ez; lia |]. lia.
Qed.

Lemma SF_impermanent_loss_above_minus_one (m : positive) (e : Z) :
  SpecFloat.bounded prec emax m e = true ->
  SFleb SF_minus_one (Uniswap.SF_impermanent_loss (S754_finite false m e)) = true.
Proof.
  intros B. unfold Uniswap.SF_impermanent_loss.
  apply minus_one_above. apply quotient_class.
  - apply twice_root. now apply SFsqrt_finite.
  - apply one_plus.
Qed.

Lemma calculate_impermanent_loss_spec (r : float) :
  Prim2SF (Uniswap.calculate_impermanent_loss r)
  = Uniswap.SF_impermanent_loss (Prim2SF r).
Proof.
  unfold Uniswap.calculate_impermanent_loss, Uniswap.SF_impermanent_loss.
  now rewrite sub_spec, div_spec, mul_spec, sqrt_spec, add_spec.
Qed.

(** X13.  For every finite ratio that is not negative the computed
    impermanent loss is a number, never a NaN, and it is not below -1, the
    loss of the whole position; at the ratio 0 it is exactly -1. *)
Theorem impermanent_loss_bounded_below (r : float) :
  (0 <=? r)%float = true ->
  (r <? infinity)%float = true ->
  (-1 <=? Uniswap.calculate_impermanent_loss r)%float = true
  /\ Uniswap.calculate_impermanent_loss 0 = (-1)%float.
Proof.
  intros Hpos Hfin. split; [| vm_compute; reflexivity].
  revert Hpos Hfin.
  rewrite !leb_spec, ltb_spec, calculate_impermanent_loss_spec.
  change (Prim2SF 0) with (S754_zero false).
  change (Prim2SF infinity) with (S754_infinity false).
  change (Prim2SF (-1)) with SF_minus_one.
  pose proof (Prim2SF_valid r) as V.
  destruct (Prim2SF r) as [s | s | | s m e]; try discriminate.
  - intros _ _. destruct s; reflexivity.
  - destruct s; discriminate.
  - destruct s; [discriminate |]. intros _ _.
    apply SF_impermanent_loss_above_minus_one. exact V.
Qed.

End RoundingFacts.

Lemma impermanent_loss_bounded_below_witness :
  (-1 <=? Uniswap.calculate_impermanent_loss 0x1.999999999999ap-1)%float = true
  /\ Uniswap.calculate_impermanent_loss 0 = (-1)%float.
Proof.
  apply (impermanent_loss_bounded_below 0x1.999999999999ap-1);
    vm_compute; reflexivity.
Defined.

(** ** The strategy comparison *)

Section StrategyFacts.
Import Strategy.
Local Open Scope R_scope.



End StrategyFacts.
